(** * A blog backend: posts and comments over a relational store

    Shallow embedding of [src/__main__.py]: the two mapped classes [Post] and
    [Comment], the unit-of-work session the handlers talk to, the handlers
    themselves (one definition per Python function, statement by statement),
    the route table with its [response_model] shaping, and the process entry
    point.

    Reading guide for the storage layer.  The handlers never touch SQL; they
    call [session.get], [session.add], [session.delete], [session.commit],
    [session.refresh] and [session.exec(select(..))].  These are embedded as
    operations of a state-and-exception monad over a [Session]: the committed
    tables plus the instances loaded or created during the request, addressed
    by reference, each with its life-cycle state (transient, pending,
    persistent, deleted, detached).  A commit flushes the tracked instances
    (INSERT, UPDATE, DELETE) in one transaction.

    The store is the SQLite file behind the engine.  Its tables are declared
    by the two classes: [id] is the INTEGER PRIMARY KEY, [title], [content]
    are VARCHAR NOT NULL and [post_id] is INTEGER NOT NULL.  Python attributes
    are dynamically typed, so an instance can hold any value under a column
    name; what the store makes of it shows when an UPDATE binds it:

    - the driver binds [None], [bool] (as 0 or 1), [int] within 64 bits and
      [str]; an integer beyond 64 bits, a list or a dict is refused;
    - a NULL is refused by every column;
    - a text column stores an integer as its decimal text;
    - an integer column stores a text that reads as an integer as that
      integer; the primary key refuses any other text, [post_id] keeps it;
    - the primary key must stay unique.

    A refusal is an exception that leaves the handler (status 500) with
    nothing written.  Rows are listed in key order; a row whose key is
    changed takes its new place.  Two limits: JSON numbers are integers here,
    and a text that reads as a number with a fraction or an exponent, or as
    an integer beyond 64 bits, is treated as any other text.  The [lifespan] hook creates the two tables at
    start-up; a database here always has both. *)

From Stdlib Require Import ZArith Bool Lia Ascii DecimalString.
From stdpp Require Import base option list strings gmap.

Local Open Scope Z_scope.
Local Open Scope string_scope.

(** ** Dynamic values

    What a JSON body can carry and what a Python attribute can hold.  JSON
    numbers are restricted to integers ([int]); [VNull] is [None]. *)
#[warnings="-register-all"]
Inductive value : Type :=
| VNull
| VBool (b : bool)
| VInt (n : Z)
| VStr (s : string)
| VList (items : list value)
| VDict (items : list (string * value)).

(** A Python [dict] with string keys, in insertion order. *)
Abbreviation dict := (list (string * value)).

Fixpoint dict_get (d : dict) (key : string) : option value :=
  match d with
  | [] => None
  | (k, v) :: d' => if String.eqb k key then Some v else dict_get d' key
  end.

(** ** Column types and what the store takes *)

(** The integers the store holds: 64 bits, signed. *)
Definition int64 (n : Z) : bool := Z.leb (- 2 ^ 63) n && Z.leb n (2 ^ 63 - 1).

(** The three kinds of column the two classes declare. *)
Inductive sqltype : Type :=
| INTEGER_PRIMARY_KEY
| INTEGER_NOT_NULL
| TEXT_NOT_NULL.

Module SQLite.
(** White space around a number in text. *)
Definition is_space (c : ascii) : bool :=
  let n := N_of_ascii c in
  ((9 <=? n) && (n <=? 13) || (n =? 32))%N.

Definition digit (c : ascii) : option Z :=
  let n := N_of_ascii c in
  if ((48 <=? n) && (n <=? 57))%N then Some (Z.of_N n - 48) else None.

Fixpoint all_space (s : string) : bool :=
  match s with
  | String c s' => is_space c && all_space s'
  | EmptyString => true
  end.

Fixpoint skip_space (s : string) : string :=
  match s with
  | String c s' => if is_space c then skip_space s' else s
  | EmptyString => EmptyString
  end.

(** Digits, then nothing but white space. *)
Fixpoint digits (acc : Z) (seen : bool) (s : string) : option Z :=
  match s with
  | EmptyString => if seen then Some acc else None
  | String c s' =>
      match digit c with
      | Some d => digits (10 * acc + d) true s'
      | None => if seen && all_space s then Some acc else None
      end
  end.

(** A text that reads as an integer the store can hold. *)
Definition integer_literal (s : string) : option Z :=
  let n := match skip_space s with
           | String "-" s' => option_map Z.opp (digits 0 false s')
           | String "+" s' => digits 0 false s'
           | s' => digits 0 false s'
           end in
  match n with
  | Some n => if int64 n then Some n else None
  | None => None
  end.

(** The decimal text of an integer. *)
Definition decimal (n : Z) : string := NilZero.string_of_int (Z.to_int n).

(** What the driver makes of a Python value handed over as a parameter;
    [None]: it raises. *)
Definition bind_param (v : value) : option value :=
  match v with
  | VNull => Some VNull
  | VBool b => Some (VInt (if b then 1 else 0))
  | VInt n => if int64 n then Some (VInt n) else None
  | VStr s => Some (VStr s)
  | VList _ => None
  | VDict _ => None
  end.

(** What a column of type [t] stores for a bound parameter; [None]: the
    statement fails. *)
Definition store_value (t : sqltype) (v : value) : option value :=
  match t, v with
  | TEXT_NOT_NULL, VInt n => Some (VStr (decimal n))
  | TEXT_NOT_NULL, VStr s => Some (VStr s)
  | INTEGER_NOT_NULL, VInt n => Some (VInt n)
  | INTEGER_NOT_NULL, VStr s =>
      match integer_literal s with
      | Some n => Some (VInt n)
      | None => Some (VStr s)
      end
  | INTEGER_PRIMARY_KEY, VInt n => Some (VInt n)
  | INTEGER_PRIMARY_KEY, VStr s =>
      match integer_literal s with
      | Some n => Some (VInt n)
      | None => None
      end
  | _, _ => None
  end.
End SQLite.

(** ** The mapped classes *)

Module Post.
(** [class Post(SQLModel, table=True)] *)
Record t : Type := mk { id : value; title : value; content : value }.

(** Assignment to a mapped column; [None] when [name] is no column. *)
Definition set_column (name : string) (v : value) (p : t) : option t :=
  if String.eqb name "id" then Some (mk v (title p) (content p))
  else if String.eqb name "title" then Some (mk (id p) v (content p))
  else if String.eqb name "content" then Some (mk (id p) (title p) v)
  else None.

Definition get_column (name : string) (p : t) : option value :=
  if String.eqb name "id" then Some (id p)
  else if String.eqb name "title" then Some (title p)
  else if String.eqb name "content" then Some (content p)
  else None.

(** [id: Optional[int]], primary key; [title: str]; [content: str]. *)
Definition column_type (name : string) : option sqltype :=
  if String.eqb name "id" then Some INTEGER_PRIMARY_KEY
  else if String.eqb name "title" then Some TEXT_NOT_NULL
  else if String.eqb name "content" then Some TEXT_NOT_NULL
  else None.
End Post.

Module Comment.
(** [class Comment(SQLModel, table=True)] *)
Record t : Type := mk { id : value; post_id : value; content : value }.

Definition set_column (name : string) (v : value) (c : t) : option t :=
  if String.eqb name "id" then Some (mk v (post_id c) (content c))
  else if String.eqb name "post_id" then Some (mk (id c) v (content c))
  else if String.eqb name "content" then Some (mk (id c) (post_id c) v)
  else None.

Definition get_column (name : string) (c : t) : option value :=
  if String.eqb name "id" then Some (id c)
  else if String.eqb name "post_id" then Some (post_id c)
  else if String.eqb name "content" then Some (content c)
  else None.

(** [id: Optional[int]], primary key; [post_id: int]; [content: str]. *)
Definition column_type (name : string) : option sqltype :=
  if String.eqb name "id" then Some INTEGER_PRIMARY_KEY
  else if String.eqb name "post_id" then Some INTEGER_NOT_NULL
  else if String.eqb name "content" then Some TEXT_NOT_NULL
  else None.
End Comment.

(** [class CreatePostModel(BaseModel)]: the validated request body. *)
Record CreatePostModel : Type :=
  { cp_title : string; cp_content : string }.

(** [class CreateCommentModel(BaseModel)] *)
Record CreateCommentModel : Type :=
  { cc_post_id : Z; cc_content : string }.

(** ** The database file: two tables, rows in storage order *)
Record DB : Type := { posts : list Post.t; comments : list Comment.t }.

(** ** Instances and the session *)

(** The life cycle of an instance with respect to its session.  A
    persistent instance remembers which columns were assigned since it was
    loaded: those are what the next flush writes. *)
Inductive object_state : Type :=
| Transient                                   (* constructed, not yet added *)
| Pending                                     (* added, INSERT at next flush *)
| Persistent (key : Z) (changed : list string) (* has a row *)
| Deleted (key : Z)                           (* DELETE at next flush *)
| Detached.                                   (* its row was deleted *)

(** An instance: the mapped attributes and its state. *)
Record instance (R : Type) : Type :=
  Instance { attrs : R; sa_state : object_state }.
Arguments Instance {R} _ _.
Arguments attrs {R} _.
Arguments sa_state {R} _.

(** A reference to an instance of class [R] held in a Python variable. *)
Definition ref (R : Type) : Type := nat.

(** [with Session(engine) as session]: the committed database and the
    instances this session tracks. *)
Record Session : Type :=
  { bind : DB;
    post_objects : list (instance Post.t);
    comment_objects : list (instance Comment.t) }.

(** What a mapped class provides to the session. *)
Class Mapped (R : Type) : Type :=
  { primary_key : R -> value;
    set_primary_key : value -> R -> R;
    set_column : string -> value -> R -> option R;
    get_column : string -> R -> option value;
    column_type : string -> option sqltype;
    table : DB -> list R;
    set_table : list R -> DB -> DB;
    objects : Session -> list (instance R);
    set_objects : list (instance R) -> Session -> Session }.

#[export] Instance Post_Mapped : Mapped Post.t :=
  {| primary_key := Post.id;
     set_primary_key := fun v p => Post.mk v (Post.title p) (Post.content p);
     set_column := Post.set_column;
     get_column := Post.get_column;
     column_type := Post.column_type;
     table := posts;
     set_table := fun rows db => {| posts := rows; comments := comments db |};
     objects := post_objects;
     set_objects := fun os s =>
       {| bind := bind s; post_objects := os;
          comment_objects := comment_objects s |} |}.

#[export] Instance Comment_Mapped : Mapped Comment.t :=
  {| primary_key := Comment.id;
     set_primary_key := fun v c => Comment.mk v (Comment.post_id c) (Comment.content c);
     set_column := Comment.set_column;
     get_column := Comment.get_column;
     column_type := Comment.column_type;
     table := comments;
     set_table := fun rows db => {| posts := posts db; comments := rows |};
     objects := comment_objects;
     set_objects := fun os s =>
       {| bind := bind s; post_objects := post_objects s;
          comment_objects := os |} |}.

(** ** Exceptions and the handler monad *)

Inductive exception : Type :=
| HTTPException (status_code : Z) (detail : string)
| Uncaught (name : string).   (* anything the handler does not raise itself *)

Inductive result (A : Type) : Type :=
| Return (a : A) (s : Session)
| Raise (e : exception) (s : Session).
Arguments Return {A} _ _.
Arguments Raise {A} _ _.

Definition M (A : Type) : Type := Session -> result A.

Definition ret {A} (a : A) : M A := fun s => Return a s.

Definition raise {A} (e : exception) : M A := fun s => Raise e s.

Definition bind_M {A B} (m : M A) (k : A -> M B) : M B :=
  fun s => match m s with
           | Return a s' => k a s'
           | Raise e s' => Raise e s'
           end.

Declare Scope handler_scope.
Delimit Scope handler_scope with handler.
Notation "x <- m ;; k" := (bind_M m (fun x => k))
  (at level 100, m at next level, right associativity) : handler_scope.
Notation "m ;; k" := (bind_M m (fun _ => k))
  (at level 100, right associativity) : handler_scope.
Local Open Scope handler_scope.

(** ** Table primitives *)

(** [WHERE id = key] on one row. *)
Definition has_key {R} `{Mapped R} (key : Z) (r : R) : bool :=
  match primary_key r with
  | VInt k => Z.eqb k key
  | _ => false
  end.

Definition select_by_key {R} `{Mapped R} (key : Z) (rows : list R) : option R :=
  List.find (has_key key) rows.

(** The integer keys in use. *)
Fixpoint rowids {R} `{Mapped R} (rows : list R) : list Z :=
  match rows with
  | [] => []
  | r :: rows' =>
      match primary_key r with
      | VInt k => k :: rowids rows'
      | _ => rowids rows'
      end
  end.

(** The key given to a row inserted without one: one more than the largest
    key in use, 1 in an empty table.  (When the largest key in use is the
    largest 64-bit integer the engine draws an unused key at random instead;
    what is stated below about a new row holds of any unused key, and where
    the place of the new row in a listing matters the largest key is
    assumed smaller.) *)
Definition next_rowid {R} `{Mapped R} (rows : list R) : Z :=
  match rowids rows with
  | [] => 1
  | k :: ks => List.fold_left Z.max ks k + 1
  end.

(** [INSERT]: a row without key gets the next one; an explicit key must be
    an integer not in use.  The handlers insert only rows built from a
    validated body, without a key: a title, a content and a [post_id] of the
    columns' own types, stored as given.  That the driver refuses a
    [post_id] beyond 64 bits is not followed here; what is stated of a new
    comment assumes its [post_id] within 64 bits. *)
Definition insert_row {R} `{Mapped R} (r : R) (rows : list R)
  : option (Z * list R) :=
  match primary_key r with
  | VNull =>
      let k := next_rowid rows in
      Some (k, (rows ++ [set_primary_key (VInt k) r])%list)
  | VInt k =>
      if List.existsb (has_key k) rows then None else Some (k, (rows ++ [r])%list)
  | _ => None
  end.

(** [DELETE .. WHERE id = key] *)
Definition delete_row {R} `{Mapped R} (key : Z) (rows : list R) : list R :=
  List.filter (fun r => negb (has_key key r)) rows.

(** The place of a row in key order: before the first row with a larger
    key. *)
Fixpoint insert_by_key {R} `{Mapped R} (k : Z) (r : R) (rows : list R) : list R :=
  match rows with
  | [] => [r]
  | r0 :: rows' =>
      match primary_key r0 with
      | VInt j => if Z.ltb k j then r :: rows else r0 :: insert_by_key k r rows'
      | _ => r0 :: insert_by_key k r rows'
      end
  end.

(** The values an UPDATE writes into the columns named: each is bound by the
    driver and taken by its column, or the statement fails. *)
Fixpoint store_columns {R} `{Mapped R} (changed : list string) (r : R)
  : option R :=
  match changed with
  | [] => Some r
  | name :: changed' =>
      match column_type name, get_column name r with
      | Some t, Some v =>
          match SQLite.bind_param v with
          | Some b =>
              match SQLite.store_value t b with
              | Some v' =>
                  match set_column name v' r with
                  | Some r' => store_columns changed' r'
                  | None => None
                  end
              | None => None
              end
          | None => None
          end
      | _, _ => None
      end
  end.

(** [UPDATE .. SET changed .. WHERE id = key]: the row must exist and the
    values must be taken by their columns; a new key must not be in use, and
    the row then moves to its place in key order. *)
Definition update_row {R} `{Mapped R} (key : Z) (changed : list string) (r : R)
    (rows : list R) : option (Z * list R) :=
  if negb (List.existsb (has_key key) rows) then None
  else
    match store_columns changed r with
    | Some r' =>
        match primary_key r' with
        | VInt k =>
            if Z.eqb k key
            then Some (k, List.map (fun r0 => if has_key key r0 then r' else r0) rows)
            else if List.existsb (has_key k) rows then None
            else Some (k, insert_by_key k r' (delete_row key rows))
        | _ => None
        end
    | None => None
    end.

(** ** The unit of work *)

(** What the flush does for one tracked instance. *)
Definition flush_one {R} `{Mapped R} (o : instance R) (rows : list R)
  : option (instance R * list R) :=
  match sa_state o with
  | Pending =>
      match insert_row (attrs o) rows with
      | Some (k, rows') =>
          Some (Instance (set_primary_key (VInt k) (attrs o))
                  (Persistent k []), rows')
      | None => None
      end
  | Persistent key [] => Some (o, rows)
  | Persistent key changed =>
      match update_row key changed (attrs o) rows with
      | Some (k, rows') => Some (Instance (attrs o) (Persistent k []), rows')
      | None => None
      end
  | Deleted key => Some (Instance (attrs o) Detached, delete_row key rows)
  | _ => Some (o, rows)
  end.

Fixpoint flush {R} `{Mapped R} (os : list (instance R)) (rows : list R)
  : option (list (instance R) * list R) :=
  match os with
  | [] => Some ([], rows)
  | o :: os' =>
      match flush_one o rows with
      | Some (o', rows') =>
          match flush os' rows' with
          | Some (os'', rows'') => Some (o' :: os'', rows'')
          | None => None
          end
      | None => None
      end
  end.

(** ** Session operations *)

Section SessionOps.
Context {R : Type} `{Mapped R}.

(** The object behind a reference. *)
Definition deref (h : ref R) : M (instance R) :=
  fun s => match objects s !! h with
           | Some o => Return o s
           | None => Raise (Uncaught "ReferenceError") s
           end.

Definition store (h : ref R) (o : instance R) : M unit :=
  fun s => Return tt (set_objects (<[h:=o]> (objects s)) s).

(** [R(...)]: a new transient instance. *)
Definition construct (r : R) : M (ref R) :=
  fun s => Return (length (objects s))
             (set_objects (objects s ++ [Instance r Transient])%list s).

(** [getattr(obj, column)] for a mapped column. *)
Definition getattr (h : ref R) (column : R -> value) : M value :=
  o <- deref h ;;
  ret (column (attrs o)).

(** [setattr(obj, name, v)].  A name that is a field of the class takes the
    value, whatever its type, and is remembered as changed; any other name
    is refused by the instance with a [ValueError].  (A name that begins
    with an underscore is no field name either, but the instance takes it
    for a private attribute of the Python object, in a way that depends on
    the version of the validation library; this is not followed here, and
    what is stated below of names that are no fields leaves those names
    out.) *)
Definition setattr (h : ref R) (name : string) (v : value) : M unit :=
  o <- deref h ;;
  match set_column name v (attrs o) with
  | Some r =>
      store h (Instance r
                 match sa_state o with
                 | Persistent k changed => Persistent k (changed ++ [name])%list
                 | st => st
                 end)
  | None => raise (Uncaught "ValueError")
  end.

(** [session.get(R, key)]: the row whose primary key is [key], loaded as a
    persistent instance, or [None].  The driver refuses to bind an integer
    beyond 64 bits; since a key the table holds is within range, the
    refusal shows exactly when such a key selects no row. *)
Definition session_get (key : value) : M (option (ref R)) :=
  fun s =>
    match key with
    | VInt k =>
        match select_by_key k (table (bind s)) with
        | Some r =>
            Return (Some (length (objects s)))
              (set_objects
                 (objects s ++ [Instance r (Persistent k [])])%list s)
        | None =>
            if int64 k then Return None s
            else Raise (Uncaught "OverflowError") s
        end
    | _ => Return None s
    end.

(** [session.add(obj)]: a transient instance becomes pending; an instance
    the session already tracks stays as it is. *)
Definition session_add (h : ref R) : M unit :=
  o <- deref h ;;
  match sa_state o with
  | Transient => store h (Instance (attrs o) Pending)
  | _ => ret tt
  end.

(** [session.delete(obj)] *)
Definition session_delete (h : ref R) : M unit :=
  o <- deref h ;;
  match sa_state o with
  | Persistent k _ => store h (Instance (attrs o) (Deleted k))
  | _ => raise (Uncaught "InvalidRequestError")
  end.

(** [session.refresh(obj)]: reload the mapped attributes from the row. *)
Definition session_refresh (h : ref R) : M unit :=
  o <- deref h ;;
  match sa_state o with
  | Persistent k _ =>
      fun s =>
        match select_by_key k (table (bind s)) with
        | Some r => store h (Instance r (Persistent k [])) s
        | None => Raise (Uncaught "InvalidRequestError") s
        end
  | _ => raise (Uncaught "InvalidRequestError")
  end.

(** [session.exec(select(R)).all()] *)
Definition select_all : M (list R) :=
  fun s => Return (table (bind s)) s.

(** [column == n] in a [where] clause, [n] an integer parameter. *)
Definition eq_int (v : value) (n : Z) : bool :=
  match v with
  | VInt k => Z.eqb k n
  | _ => false
  end.

(** [session.exec(select(R).where(column == n)).all()]: the driver refuses
    to bind an [n] beyond 64 bits. *)
Definition select_where (column : R -> value) (n : Z) : M (list R) :=
  fun s =>
    if int64 n
    then Return (List.filter (fun r => eq_int (column r) n) (table (bind s))) s
    else Raise (Uncaught "OverflowError") s.
End SessionOps.

Arguments session_get R {_} key.
Arguments select_all R {_}.
Arguments select_where R {_} column n.

(** [session.commit()]: flush every tracked instance, both tables in one
    transaction.  If a statement fails nothing is written and the exception
    leaves the handler. *)
Definition session_commit : M unit :=
  fun s =>
    match flush (post_objects s) (posts (bind s)),
          flush (comment_objects s) (comments (bind s)) with
    | Some (pos, prows), Some (cos, crows) =>
        Return tt {| bind := {| posts := prows; comments := crows |};
                     post_objects := pos; comment_objects := cos |}
    | _, _ => Raise (Uncaught "SQLAlchemyError") s
    end.

(** [d[key]] *)
Definition dict_item (d : dict) (key : string) : M value :=
  match dict_get d key with
  | Some v => ret v
  | None => raise (Uncaught "KeyError")
  end.

(** [for x in l: body(x)] *)
Fixpoint for_each {A} (l : list A) (body : A -> M unit) : M unit :=
  match l with
  | [] => ret tt
  | x :: l' => body x ;; for_each l' body
  end.

(** ** The handlers *)

Definition create_post (post : CreatePostModel) : M (ref Post.t) :=
  post <- construct (Post.mk VNull (VStr (cp_title post)) (VStr (cp_content post))) ;;
  session_add post ;;
  session_commit ;;
  session_refresh post ;;
  ret post.

Definition read_posts : M (list Post.t) :=
  posts <- select_all Post.t ;;
  ret posts.

Definition read_post (post_id : Z) : M (ref Post.t) :=
  post <- session_get Post.t (VInt post_id) ;;
  match post with
  | None => raise (HTTPException 404 "Post not found")
  | Some post => ret post
  end.

Definition replace_post (post_id : Z) (post : CreatePostModel) : M (ref Post.t) :=
  db_post <- session_get Post.t (VInt post_id) ;;
  match db_post with
  | None => raise (HTTPException 404 "Post not found")
  | Some db_post =>
      let post_data : dict :=
        [("title", VStr (cp_title post)); ("content", VStr (cp_content post))] in
      v <- dict_item post_data "title" ;;
      setattr db_post "title" v ;;
      v <- dict_item post_data "content" ;;
      setattr db_post "content" v ;;
      session_add db_post ;;
      session_commit ;;
      session_refresh db_post ;;
      ret db_post
  end.

Definition update_post (post_id : Z) (patch_data : dict) : M (ref Post.t) :=
  db_post <- session_get Post.t (VInt post_id) ;;
  match db_post with
  | None => raise (HTTPException 404 "Post not found")
  | Some db_post =>
      for_each patch_data (fun '(key, value) => setattr db_post key value) ;;
      session_add db_post ;;
      session_commit ;;
      session_refresh db_post ;;
      ret db_post
  end.

Definition delete_post (post_id : Z) : M dict :=
  post <- session_get Post.t (VInt post_id) ;;
  match post with
  | None => raise (HTTPException 404 "Post not found")
  | Some post =>
      session_delete post ;;
      session_commit ;;
      ret [("message", VStr "Post deleted successfully")]
  end.

Definition read_post_comments (post_id : Z) : M (list Comment.t) :=
  comments <- select_where Comment.t Comment.post_id post_id ;;
  ret comments.

Definition create_comment (comment : CreateCommentModel) : M (ref Comment.t) :=
  comment <- construct (Comment.mk VNull (VInt (cc_post_id comment))
                          (VStr (cc_content comment))) ;;
  session_add comment ;;
  session_commit ;;
  session_refresh comment ;;
  ret comment.

Definition read_comments : M (list Comment.t) :=
  comments <- select_all Comment.t ;;
  ret comments.

Definition read_comment (comment_id : Z) : M (ref Comment.t) :=
  comment <- session_get Comment.t (VInt comment_id) ;;
  match comment with
  | None => raise (HTTPException 404 "Comment not found")
  | Some comment => ret comment
  end.

Definition replace_comment (comment_id : Z) (comment : CreateCommentModel)
  : M (ref Comment.t) :=
  db_comment <- session_get Comment.t (VInt comment_id) ;;
  match db_comment with
  | None => raise (HTTPException 404 "Comment not found")
  | Some db_comment =>
      let comment_data : dict :=
        [("post_id", VInt (cc_post_id comment));
         ("content", VStr (cc_content comment))] in
      v <- dict_item comment_data "post_id" ;;
      setattr db_comment "post_id" v ;;
      v <- dict_item comment_data "content" ;;
      setattr db_comment "content" v ;;
      session_add db_comment ;;
      session_commit ;;
      session_refresh db_comment ;;
      ret db_comment
  end.

Definition update_comment (comment_id : Z) (patch_data : dict)
  : M (ref Comment.t) :=
  db_comment <- session_get Comment.t (VInt comment_id) ;;
  match db_comment with
  | None => raise (HTTPException 404 "Comment not found")
  | Some db_comment =>
      for_each patch_data (fun '(key, value) => setattr db_comment key value) ;;
      session_add db_comment ;;
      session_commit ;;
      session_refresh db_comment ;;
      ret db_comment
  end.

Definition delete_comment (comment_id : Z) : M dict :=
  comment <- session_get Comment.t (VInt comment_id) ;;
  match comment with
  | None => raise (HTTPException 404 "Comment not found")
  | Some comment =>
      session_delete comment ;;
      session_commit ;;
      ret [("message", VStr "Comment deleted successfully")]
  end.

Definition read_comment_post (comment_id : Z) : M (ref Post.t) :=
  comment <- session_get Comment.t (VInt comment_id) ;;
  match comment with
  | None => raise (HTTPException 404 "Comment not found")
  | Some comment =>
      post_id <- getattr comment Comment.post_id ;;
      post <- session_get Post.t post_id ;;
      match post with
      | None => raise (HTTPException 404 "Post not found")
      | Some post => ret post
      end
  end.
(** ** Responses and the route table *)

Record Response : Type := { status : Z; body : value }.

(** [response_model=Post] *)
Definition Post_fields (p : Post.t) : value :=
  VDict [("id", Post.id p); ("title", Post.title p); ("content", Post.content p)].

(** [response_model=CreatePostModel]: the fields [title] and [content] of
    whatever the handler returned. *)
Definition CreatePostModel_fields (p : Post.t) : value :=
  VDict [("title", Post.title p); ("content", Post.content p)].

(** [response_model=Comment] *)
Definition Comment_fields (c : Comment.t) : value :=
  VDict [("id", Comment.id c); ("post_id", Comment.post_id c);
         ("content", Comment.content c)].

(** [response_model=CreateCommentModel] *)
Definition CreateCommentModel_fields (c : Comment.t) : value :=
  VDict [("post_id", Comment.post_id c); ("content", Comment.content c)].

(** Shaping the returned object through a response model reads its
    attributes. *)
Definition response_model {R} `{Mapped R} (fields : R -> value) (h : ref R)
  : M value :=
  o <- deref h ;;
  ret (fields (attrs o)).

(** [response_model=List[..]] *)
Definition response_list {R} (fields : R -> value) (l : list R) : M value :=
  ret (VList (List.map fields l)).

(** A route without response model returning a [dict]. *)
Definition response_dict (d : dict) : M value := ret (VDict d).

(** [Depends(get_session)]: one request runs the handler in a session of its
    own over the database, then shapes what came back.  An [HTTPException]
    becomes a response with its status and detail, any other exception an
    internal server error.  The database after the request is what the
    session committed. *)
Definition serve {A} (handler : M A) (shape : A -> M value) (db : DB)
  : Response * DB :=
  match (a <- handler ;; shape a)
          {| bind := db; post_objects := []; comment_objects := [] |} with
  | Return v s => ({| status := 200; body := v |}, bind s)
  | Raise (HTTPException code detail) s =>
      ({| status := code; body := VDict [("detail", VStr detail)] |}, bind s)
  | Raise (Uncaught _) s =>
      ({| status := 500; body := VStr "Internal Server Error" |}, bind s)
  end.

(** The requests the application routes, after path and body validation. *)
Inductive request : Type :=
| POST_posts (post : CreatePostModel)
| PUT_posts (post : CreatePostModel)
| GET_posts
| GET_posts_id (post_id : Z)
| PUT_posts_id (post_id : Z) (post : CreatePostModel)
| PATCH_posts_id (post_id : Z) (patch_data : dict)
| DELETE_posts_id (post_id : Z)
| GET_posts_id_comments (post_id : Z)
| POST_comments (comment : CreateCommentModel)
| PUT_comments (comment : CreateCommentModel)
| GET_comments
| GET_comments_id (comment_id : Z)
| PUT_comments_id (comment_id : Z) (comment : CreateCommentModel)
| PATCH_comments_id (comment_id : Z) (patch_data : dict)
| DELETE_comments_id (comment_id : Z)
| GET_comments_id_post (comment_id : Z).

(** The decorators of the source, one line per route. *)
Definition app (req : request) : DB -> Response * DB :=
  match req with
  | POST_posts post => serve (create_post post) (response_model CreatePostModel_fields)
  | PUT_posts post => serve (create_post post) (response_model CreatePostModel_fields)
  | GET_posts => serve read_posts (response_list Post_fields)
  | GET_posts_id post_id => serve (read_post post_id) (response_model Post_fields)
  | PUT_posts_id post_id post =>
      serve (replace_post post_id post) (response_model Post_fields)
  | PATCH_posts_id post_id patch_data =>
      serve (update_post post_id patch_data) (response_model Post_fields)
  | DELETE_posts_id post_id => serve (delete_post post_id) response_dict
  | GET_posts_id_comments post_id =>
      serve (read_post_comments post_id) (response_list Comment_fields)
  | POST_comments comment =>
      serve (create_comment comment) (response_model CreateCommentModel_fields)
  | PUT_comments comment =>
      serve (create_comment comment) (response_model CreateCommentModel_fields)
  | GET_comments => serve read_comments (response_list Comment_fields)
  | GET_comments_id comment_id =>
      serve (read_comment comment_id) (response_model Comment_fields)
  | PUT_comments_id comment_id comment =>
      serve (replace_comment comment_id comment) (response_model Comment_fields)
  | PATCH_comments_id comment_id patch_data =>
      serve (update_comment comment_id patch_data) (response_model Comment_fields)
  | DELETE_comments_id comment_id => serve (delete_comment comment_id) response_dict
  | GET_comments_id_post comment_id =>
      serve (read_comment_post comment_id) (response_model Post_fields)
  end.

(** The handler's own outcome on a database, before response shaping: what
    it returned (the attributes of the returned object, for a handler that
    returns one) and what it committed. *)
Definition run {A} (handler : M A) (db : DB) : result A :=
  handler {| bind := db; post_objects := []; comment_objects := [] |}.

(** The attributes of the object a handler returned. *)
Definition returned {R} `{Mapped R} (res : result (ref R)) : option R :=
  match res with
  | Return h s => attrs <$> objects s !! h
  | Raise _ _ => None
  end.

(** The database a handler leaves behind. *)
Definition committed {A} (res : result A) : DB :=
  match res with
  | Return _ s => bind s
  | Raise _ s => bind s
  end.

(** A member of a JSON object body. *)
Definition body_field (resp : Response) (name : string) : option value :=
  match body resp with
  | VDict d => dict_get d name
  | _ => None
  end.

(** ** Field assignment, stated on its own

    What the loop of the partial update is said to do: every key of the
    mapping is assigned onto the record in turn, whatever the value; a key
    that names no field stops it ([None]).  This is the reference the loop
    of [update_post] is compared with. *)
Fixpoint assign_all {R} `{Mapped R} (patch_data : dict) (r : R) : option R :=
  match patch_data with
  | [] => Some r
  | (key, v) :: patch_data' =>
      match set_column key v r with
      | Some r' => assign_all patch_data' r'
      | None => None
      end
  end.





(** What a lookup that finds no row ends with: the 404 of the handler, or
    the refusal of the driver when the id is beyond 64 bits. *)
Definition missing (id : Z) (detail : string) : exception :=
  if int64 id then HTTPException 404 detail else Uncaught "OverflowError".


(** Columns can be read and written by name. *)
Class ColumnLaws (R : Type) `{Mapped R} : Prop :=
  { set_column_known : forall name v r,
      set_column name v r = None <-> column_type name = None;
    get_column_known : forall name r,
      get_column name r = None <-> column_type name = None;
    get_set_same : forall name v r r',
      set_column name v r = Some r' -> get_column name r' = Some v;
    get_set_other : forall name name' v r r',
      set_column name v r = Some r' -> name' <> name ->
      get_column name' r' = get_column name' r;
    set_get : forall name v r,
      get_column name r = Some v -> set_column name v r = Some r }.

(** ** Three properties of a computation in a session *)

(** It never writes the database. *)
Definition read_only {A} (m : M A) : Prop :=
  forall s, committed (m s) = bind s.

(** It never raises an [HTTPException]. *)
Definition no_http {A} (m : M A) : Prop :=
  forall s, match m s with
            | Raise (HTTPException _ _) _ => False
            | _ => True
            end.

(** When it raises an [HTTPException], the database is as it was. *)
Definition http_atomic {A} (m : M A) : Prop :=
  forall s, match m s with
            | Raise (HTTPException _ _) s' => bind s' = bind s
            | _ => True
            end.

(** Tracking an instance does not touch the database. *)
Class MappedLaws (R : Type) `{Mapped R} : Prop :=
  { bind_set_objects : forall os s, bind (set_objects os s) = bind s }.

(** ** Small stores used as examples *)

Definition post_one : Post.t := Post.mk (VInt 1) (VStr "T") (VStr "C").

Definition store_empty : DB := {| posts := []; comments := [] |}.

Definition store_one_post : DB := {| posts := [post_one]; comments := [] |}.

(** The comment 1 points at the post 1, which is gone. *)
Definition store_orphan : DB :=
  {| posts := [];
     comments := [Comment.mk (VInt 1) (VInt 1) (VStr "first")] |}.

(** The responses of the application. *)
Definition not_found (detail : string) : Response :=
  {| status := 404; body := VDict [("detail", VStr detail)] |}.

Definition ok (v : value) : Response := {| status := 200; body := v |}.

(** ** Further properties of requests and stores *)

(** The routes registered with [app.get]. *)
Definition is_GET (req : request) : bool :=
  match req with
  | GET_posts | GET_posts_id _ | GET_posts_id_comments _
  | GET_comments | GET_comments_id _ | GET_comments_id_post _ => true
  | _ => false
  end.

(** The routes on a collection: create and list. *)
Definition on_collection (req : request) : bool :=
  match req with
  | POST_posts _ | PUT_posts _ | GET_posts
  | POST_comments _ | PUT_comments _ | GET_comments
  | GET_posts_id_comments _ => true
  | _ => false
  end.

(** The integers a request on a collection hands to the store are within
    64 bits. *)
Definition within_64_bits (req : request) : bool :=
  match req with
  | POST_comments comment | PUT_comments comment => int64 (cc_post_id comment)
  | GET_posts_id_comments post_id => int64 post_id
  | _ => true
  end.

(** The only [HTTPException] it raises has status 404. *)
Definition only_404 {A} (m : M A) : Prop :=
  forall s, match m s with
            | Raise (HTTPException code _) _ => code = 404
            | _ => True
            end.

(** A table whose primary keys are integers, no two rows sharing one. *)
Fixpoint distinct (ks : list Z) : bool :=
  match ks with
  | [] => true
  | k :: ks' => negb (List.existsb (Z.eqb k) ks') && distinct ks'
  end.

Definition keyed {R} `{Mapped R} (r : R) : bool :=
  match primary_key r with
  | VInt _ => true
  | _ => false
  end.

Definition unique_keys {R} `{Mapped R} (rows : list R) : bool :=
  List.forallb keyed rows && distinct (rowids rows).

Definition well_keyed (db : DB) : bool :=
  unique_keys (posts db) && unique_keys (comments db).

(** The proposition behind [unique_keys]. *)
Definition uk {R} `{Mapped R} (rows : list R) : Prop :=
  List.Forall (fun r => exists k, primary_key r = VInt k) rows
  /\ List.NoDup (rowids rows).

(** It leaves a well-keyed database well keyed, however it ends. *)
Definition keeps_keys {A} (m : M A) : Prop :=
  forall s, well_keyed (bind s) = true -> well_keyed (committed (m s)) = true.

(** The key of a row is its column [id]. *)
Class KeyLaws (R : Type) `{Mapped R} : Prop :=
  { primary_key_set : forall v r, primary_key (set_primary_key v r) = v;
    set_column_key : forall name v r r',
      set_column name v r = Some r' ->
      primary_key r' = (if String.eqb name "id" then v else primary_key r);
    key_column_type : column_type "id" = Some INTEGER_PRIMARY_KEY;
    key_column_get : forall r, get_column "id" r = Some (primary_key r) }.

(** The answer to an exception no handler raises itself. *)
Definition server_error : Response :=
  {| status := 500; body := VStr "Internal Server Error" |}.

(** The answer when an id selects no row: the 404 of the handler, or the
    internal server error that the driver's refusal of an id beyond 64 bits
    comes to. *)
Definition absent (id : Z) (detail : string) : Response :=
  if int64 id then not_found detail else server_error.

(** Two stores used as examples: posts 1 and 2; and post 1 with one comment
    on it. *)
Definition store_two_posts : DB :=
  {| posts := [post_one; Post.mk (VInt 2) (VStr "U") (VStr "D")];
     comments := [] |}.

Definition store_commented : DB :=
  {| posts := [post_one];
     comments := [Comment.mk (VInt 1) (VInt 1) (VStr "first")] |}.

(** The first integer beyond what the store holds. *)
Definition beyond_int64 : Z := 2 ^ 63.

(** ** The process entry point *)

Module Main.
(** Environment values are taken as ASCII text.  White space, as [int]
    strips it from such a text. *)
Definition is_space (c : ascii) : bool :=
  let n := N_of_ascii c in
  ((9 <=? n) && (n <=? 13) || (n =? 32))%N.

Definition digit (c : ascii) : option Z :=
  let n := N_of_ascii c in
  if ((48 <=? n) && (n <=? 57))%N then Some (Z.of_N n - 48) else None.

Fixpoint lstrip (s : string) : string :=
  match s with
  | String c s' => if is_space c then lstrip s' else s
  | EmptyString => EmptyString
  end.

Fixpoint rstrip (s : string) : string :=
  match s with
  | String c s' =>
      match rstrip s' with
      | EmptyString => if is_space c then EmptyString else String c EmptyString
      | r => String c r
      end
  | EmptyString => EmptyString
  end.

(** Decimal digits, single underscores allowed between two digits. *)
Fixpoint digits (acc : Z) (after_digit : bool) (s : string) : option Z :=
  match s with
  | EmptyString => if after_digit then Some acc else None
  | String c s' =>
      match digit c with
      | Some d => digits (10 * acc + d) true s'
      | None =>
          if Ascii.eqb c "_" && after_digit then digits acc false s' else None
      end
  end.

(** How many digits a text has. *)
Fixpoint count_digits (s : string) : nat :=
  match s with
  | String c s' =>
      match digit c with
      | Some _ => S (count_digits s')
      | None => count_digits s'
      end
  | EmptyString => O
  end.

(** [int(s)] for a string; [None] is [ValueError].  A text of more than
    4300 digits is refused whatever it reads. *)
Definition int_of_str (s : string) : option Z :=
  if (4300 <? count_digits s)%nat then None
  else
    match rstrip (lstrip s) with
    | String "-" s' => option_map Z.opp (digits 0 false s')
    | String "+" s' => digits 0 false s'
    | s' => digits 0 false s'
    end.

(** [int(x)] where [x] is a string or already an integer. *)
Definition int (x : string + Z) : option Z :=
  match x with
  | inl s => int_of_str s
  | inr n => Some n
  end.

(** [host = getenv("HOST", "127.0.0.1")] *)
Definition host (environ : gmap string string) : string :=
  default "127.0.0.1" (environ !! "HOST").

(** [port = getenv("PORT", 8000)] followed by the [try: port = int(port)
    except ValueError: port = 8000]. *)
Definition port (environ : gmap string string) : Z :=
  let port : string + Z :=
    match environ !! "PORT" with
    | Some s => inl s
    | None => inr 8000
    end in
  match int port with
  | Some n => n
  | None => 8000
  end.

(** [uvicorn.run(app, host=.., port=..)]: the address the listener is
    started on. *)
Definition uvicorn_run (host : string) (port : Z) : string * Z := (host, port).

(** The [if __name__ == "__main__":] block. *)
Definition main (environ : gmap string string) : string * Z :=
  let host := host environ in
  let port := port environ in
  uvicorn_run "127.0.0.1" 8000.
End Main.

(** * Facts about the tables *)

Section TableFacts.
Context {R : Type} `{Mapped R}.

Lemma has_key_primary_key (k : Z) (r : R) :
  has_key k r = true <-> primary_key r = VInt k.
Proof.
  unfold has_key. destruct (primary_key r) as [| |n| | |]; split; try discriminate.
  - intros E. apply Z.eqb_eq in E. now subst.
  - intros E. injection E as ->. apply Z.eqb_refl.
Qed.

Lemma select_by_key_Some (k : Z) (rows : list R) (r : R) :
  select_by_key k rows = Some r -> In r rows /\ primary_key r = VInt k.
Proof.
  unfold select_by_key. intros E. apply List.find_some in E as [Hin Hk].
  split; [exact Hin | now apply has_key_primary_key].
Qed.

Lemma select_by_key_exists (k : Z) (rows : list R) :
  List.existsb (has_key k) rows = match select_by_key k rows with
                                  | Some _ => true
                                  | None => false
                                  end.
Proof.
  unfold select_by_key.
  induction rows as [|r rows IH]; simpl; [reflexivity|].
  destruct (has_key k r); simpl; [reflexivity | exact IH].
Qed.

Lemma rowids_complete (k : Z) (rows : list R) :
  List.existsb (has_key k) rows = true -> In k (rowids rows).
Proof.
  induction rows as [|r rows IH]; simpl; [discriminate|].
  unfold has_key at 1.
  destruct (primary_key r) as [| |n| | |]; simpl; auto.
  destruct (Z.eqb_spec n k) as [->|_]; simpl; [now left | right; auto].
Qed.

Lemma fold_max_bounds (ks : list Z) (k0 : Z) :
  k0 <= List.fold_left Z.max ks k0 /\
  forall k, In k ks -> k <= List.fold_left Z.max ks k0.
Proof.
  revert k0. induction ks as [|k1 ks IH]; intros k0; simpl.
  - split; [lia | tauto].
  - destruct (IH (Z.max k0 k1)) as [Hlo Hall]. split; [lia|].
    intros k [<-|Hin]; [lia | now apply Hall].
Qed.

(** The key handed out by the store is in use by no row. *)
Lemma next_rowid_fresh (rows : list R) :
  select_by_key (next_rowid rows) rows = None.
Proof.
  pose proof (select_by_key_exists (next_rowid rows) rows) as E.
  destruct (select_by_key (next_rowid rows) rows); [|reflexivity].
  apply rowids_complete in E. unfold next_rowid in E.
  destruct (rowids rows) as [|k ks]; [destruct E|].
  destruct (fold_max_bounds ks k) as [Hlo Hall].
  destruct E as [E|E]; [lia | apply Hall in E; lia].
Qed.

Lemma select_by_key_app (k : Z) (rows : list R) (r : R) :
  select_by_key k (rows ++ [r]) =
    match select_by_key k rows with
    | Some r0 => Some r0
    | None => if has_key k r then Some r else None
    end.
Proof.
  unfold select_by_key.
  induction rows as [|r0 rows IH]; simpl; [reflexivity|].
  destruct (has_key k r0); [reflexivity | exact IH].
Qed.

(** After [UPDATE .. WHERE id = key] to a row [r] whose key [k] is the old
    one or a free one, [k] selects [r]. *)
Lemma select_by_key_updated (key k : Z) (r : R) (rows : list R) :
  primary_key r = VInt k ->
  List.existsb (has_key key) rows = true ->
  k = key \/ List.existsb (has_key k) rows = false ->
  select_by_key k
    (List.map (fun r0 => if has_key key r0 then r else r0) rows) = Some r.
Proof.
  intros Hr. apply has_key_primary_key in Hr. unfold select_by_key.
  induction rows as [|r0 rows IH]; simpl; [discriminate|].
  intros Hex Hk.
  destruct (has_key key r0) eqn:E0; simpl.
  - now rewrite Hr.
  - destruct (has_key k r0) eqn:E1.
    + destruct Hk as [->|Hk]; [congruence | discriminate].
    + apply IH; [exact Hex|]. destruct Hk; auto.
Qed.

(** Rows under other keys are not affected by the update. *)
Lemma select_by_key_update_other (key k j : Z) (r : R) (rows : list R) :
  primary_key r = VInt k -> j <> key -> j <> k ->
  select_by_key j
    (List.map (fun r0 => if has_key key r0 then r else r0) rows) =
  select_by_key j rows.
Proof.
  intros Hr Hjkey Hjk. unfold select_by_key.
  assert (Hjr : has_key j r = false).
  { unfold has_key. rewrite Hr. now apply Z.eqb_neq. }
  induction rows as [|r0 rows IH]; simpl; [reflexivity|].
  destruct (has_key key r0) eqn:E0.
  - rewrite Hjr. apply has_key_primary_key in E0.
    assert (has_key j r0 = false) as ->; [|exact IH].
    unfold has_key. rewrite E0. now apply Z.eqb_neq.
  - now rewrite IH.
Qed.

Lemma select_by_key_deleted (key : Z) (rows : list R) :
  select_by_key key (delete_row key rows) = None.
Proof.
  unfold select_by_key, delete_row.
  induction rows as [|r rows IH]; simpl; [reflexivity|].
  destruct (has_key key r) eqn:E; simpl; [exact IH | now rewrite E].
Qed.

Lemma select_by_key_delete_other (key j : Z) (rows : list R) :
  j <> key ->
  select_by_key j (delete_row key rows) = select_by_key j rows.
Proof.
  intros Hj. unfold select_by_key, delete_row.
  induction rows as [|r rows IH]; simpl; [reflexivity|].
  destruct (has_key key r) eqn:E; simpl.
  - apply has_key_primary_key in E.
    assert (has_key j r = false) as ->; [|exact IH].
    unfold has_key. rewrite E. now apply Z.eqb_neq.
  - now rewrite IH.
Qed.
End TableFacts.


(** * The handlers, run on a database *)

Arguments select_by_key : simpl never.
Arguments next_rowid : simpl never.
Arguments delete_row : simpl never.
Arguments insert_by_key : simpl never.
Arguments has_key : simpl never.
Arguments update_row : simpl never.
Arguments int64 : simpl never.
Arguments SQLite.decimal : simpl never.
Arguments SQLite.integer_literal : simpl never.
Arguments Post.set_column !name v p : simpl nomatch.
Arguments Comment.set_column !name v c : simpl nomatch.
Arguments Post.get_column !name p : simpl nomatch.
Arguments Comment.get_column !name c : simpl nomatch.
Arguments Post.column_type !name : simpl nomatch.
Arguments Comment.column_type !name : simpl nomatch.

Lemma create_post_run (post : CreatePostModel) (db : DB) :
  let k := next_rowid (posts db) in
  let row := Post.mk (VInt k) (VStr (cp_title post)) (VStr (cp_content post)) in
  run (create_post post) db =
    Return 0%nat
      {| bind := {| posts := posts db ++ [row]; comments := comments db |};
         post_objects := [Instance row (Persistent k [])];
         comment_objects := [] |}.
Proof.
  intros k row. unfold run, create_post, bind_M. cbn.
  unfold session_refresh, bind_M. cbn.
  rewrite select_by_key_app, next_rowid_fresh.
  unfold has_key. cbn. rewrite Z.eqb_refl. reflexivity.
Qed.

Lemma create_comment_run (comment : CreateCommentModel) (db : DB) :
  let k := next_rowid (comments db) in
  let row := Comment.mk (VInt k) (VInt (cc_post_id comment))
               (VStr (cc_content comment)) in
  run (create_comment comment) db =
    Return 0%nat
      {| bind := {| posts := posts db; comments := comments db ++ [row] |};
         post_objects := [];
         comment_objects := [Instance row (Persistent k [])] |}.
Proof.
  intros k row. unfold run, create_comment, bind_M. cbn.
  unfold session_refresh, bind_M. cbn.
  rewrite select_by_key_app, next_rowid_fresh.
  unfold has_key. cbn. rewrite Z.eqb_refl. reflexivity.
Qed.

Lemma read_post_run (post_id : Z) (db : DB) :
  run (read_post post_id) db =
    match select_by_key post_id (posts db) with
    | Some r =>
        Return 0%nat
          {| bind := db;
             post_objects := [Instance r (Persistent post_id [])];
             comment_objects := [] |}
    | None =>
        Raise (missing post_id "Post not found")
          {| bind := db; post_objects := []; comment_objects := [] |}
    end.
Proof.
  unfold run, read_post, bind_M, session_get, missing. cbn.
  destruct (select_by_key post_id (posts db)); [reflexivity|].
  destruct (int64 post_id); reflexivity.
Qed.

Lemma read_comment_run (comment_id : Z) (db : DB) :
  run (read_comment comment_id) db =
    match select_by_key comment_id (comments db) with
    | Some r =>
        Return 0%nat
          {| bind := db;
             post_objects := [];
             comment_objects := [Instance r (Persistent comment_id [])] |}
    | None =>
        Raise (missing comment_id "Comment not found")
          {| bind := db; post_objects := []; comment_objects := [] |}
    end.
Proof.
  unfold run, read_comment, bind_M, session_get, missing. cbn.
  destruct (select_by_key comment_id (comments db)); [reflexivity|].
  destruct (int64 comment_id); reflexivity.
Qed.

Lemma delete_post_run (post_id : Z) (db : DB) :
  run (delete_post post_id) db =
    match select_by_key post_id (posts db) with
    | Some r =>
        Return [("message", VStr "Post deleted successfully")]
          {| bind := {| posts := delete_row post_id (posts db);
                        comments := comments db |};
             post_objects := [Instance r Detached];
             comment_objects := [] |}
    | None =>
        Raise (missing post_id "Post not found")
          {| bind := db; post_objects := []; comment_objects := [] |}
    end.
Proof.
  unfold run, delete_post, bind_M, session_get, missing. cbn.
  destruct (select_by_key post_id (posts db)); [reflexivity|].
  destruct (int64 post_id); reflexivity.
Qed.

Lemma delete_comment_run (comment_id : Z) (db : DB) :
  run (delete_comment comment_id) db =
    match select_by_key comment_id (comments db) with
    | Some c =>
        Return [("message", VStr "Comment deleted successfully")]
          {| bind := {| posts := posts db;
                        comments := delete_row comment_id (comments db) |};
             post_objects := [];
             comment_objects := [Instance c Detached] |}
    | None =>
        Raise (missing comment_id "Comment not found")
          {| bind := db; post_objects := []; comment_objects := [] |}
    end.
Proof.
  unfold run, delete_comment, bind_M, session_get, missing. cbn.
  destruct (select_by_key comment_id (comments db)); [reflexivity|].
  destruct (int64 comment_id); reflexivity.
Qed.

Lemma read_comment_post_run (comment_id : Z) (db : DB) :
  run (read_comment_post comment_id) db =
    match select_by_key comment_id (comments db) with
    | Some c =>
        let s := {| bind := db; post_objects := [];
                    comment_objects :=
                      [Instance c (Persistent comment_id [])] |} in
        match Comment.post_id c with
        | VInt p =>
            match select_by_key p (posts db) with
            | Some r =>
                Return 0%nat
                  {| bind := db;
                     post_objects := [Instance r (Persistent p [])];
                     comment_objects :=
                       [Instance c (Persistent comment_id [])] |}
            | None => Raise (missing p "Post not found") s
            end
        | _ => Raise (HTTPException 404 "Post not found") s
        end
    | None =>
        Raise (missing comment_id "Comment not found")
          {| bind := db; post_objects := []; comment_objects := [] |}
    end.
Proof.
  unfold run, read_comment_post, missing. unfold bind_M at 1.
  unfold session_get at 1. cbn.
  destruct (select_by_key comment_id (comments db)) as [c|];
    [|destruct (int64 comment_id); reflexivity].
  unfold bind_M, getattr, deref, session_get. cbn.
  destruct (Comment.post_id c); try reflexivity.
  cbn. destruct (select_by_key n (posts db)); [reflexivity|].
  destruct (int64 n); reflexivity.
Qed.

(** * Columns, by name *)

#[export] Instance Post_ColumnLaws : ColumnLaws Post.t.
Proof.
  constructor.
  - intros name v r. cbn. unfold Post.set_column, Post.column_type.
    destruct (String.eqb name "id"); [split; discriminate|].
    destruct (String.eqb name "title"); [split; discriminate|].
    destruct (String.eqb name "content"); [split; discriminate | tauto].
  - intros name r. cbn. unfold Post.get_column, Post.column_type.
    destruct (String.eqb name "id"); [split; discriminate|].
    destruct (String.eqb name "title"); [split; discriminate|].
    destruct (String.eqb name "content"); [split; discriminate | tauto].
  - intros name v r r'. cbn. unfold Post.set_column, Post.get_column.
    destruct (String.eqb name "id"); [now intros [= <-]|].
    destruct (String.eqb name "title"); [now intros [= <-]|].
    destruct (String.eqb name "content"); [now intros [= <-] | discriminate].
  - intros name name' v r r'. cbn. unfold Post.set_column, Post.get_column.
    intros Hset Hne.
    destruct (String.eqb_spec name "id") as [->|_].
    { injection Hset as <-. apply String.eqb_neq in Hne. now rewrite Hne. }
    destruct (String.eqb_spec name "title") as [->|_].
    { injection Hset as <-. apply String.eqb_neq in Hne. cbn. now rewrite Hne. }
    destruct (String.eqb_spec name "content") as [->|_]; [|discriminate].
    injection Hset as <-. apply String.eqb_neq in Hne. cbn. now rewrite Hne.
  - intros name v [i t c]. cbn. unfold Post.set_column, Post.get_column. cbn.
    destruct (String.eqb name "id"); [now intros [= <-]|].
    destruct (String.eqb name "title"); [now intros [= <-]|].
    destruct (String.eqb name "content"); [now intros [= <-] | discriminate].
Qed.

#[export] Instance Comment_ColumnLaws : ColumnLaws Comment.t.
Proof.
  constructor.
  - intros name v r. cbn. unfold Comment.set_column, Comment.column_type.
    destruct (String.eqb name "id"); [split; discriminate|].
    destruct (String.eqb name "post_id"); [split; discriminate|].
    destruct (String.eqb name "content"); [split; discriminate | tauto].
  - intros name r. cbn. unfold Comment.get_column, Comment.column_type.
    destruct (String.eqb name "id"); [split; discriminate|].
    destruct (String.eqb name "post_id"); [split; discriminate|].
    destruct (String.eqb name "content"); [split; discriminate | tauto].
  - intros name v r r'. cbn. unfold Comment.set_column, Comment.get_column.
    destruct (String.eqb name "id"); [now intros [= <-]|].
    destruct (String.eqb name "post_id"); [now intros [= <-]|].
    destruct (String.eqb name "content"); [now intros [= <-] | discriminate].
  - intros name name' v r r'. cbn. unfold Comment.set_column, Comment.get_column.
    intros Hset Hne.
    destruct (String.eqb_spec name "id") as [->|_].
    { injection Hset as <-. apply String.eqb_neq in Hne. now rewrite Hne. }
    destruct (String.eqb_spec name "post_id") as [->|_].
    { injection Hset as <-. apply String.eqb_neq in Hne. cbn. now rewrite Hne. }
    destruct (String.eqb_spec name "content") as [->|_]; [|discriminate].
    injection Hset as <-. apply String.eqb_neq in Hne. cbn. now rewrite Hne.
  - intros name v [i p c]. cbn. unfold Comment.set_column, Comment.get_column. cbn.
    destruct (String.eqb name "id"); [now intros [= <-]|].
    destruct (String.eqb name "post_id"); [now intros [= <-]|].
    destruct (String.eqb name "content"); [now intros [= <-] | discriminate].
Qed.

Section ColumnFacts.
Context {R : Type} `{ColumnLaws R}.






End ColumnFacts.

Section KeyOrderFacts.
Context {R : Type} `{Mapped R}.

Lemma select_by_key_inserted (k : Z) (r : R) (rows : list R) :
  primary_key r = VInt k -> select_by_key k rows = None ->
  select_by_key k (insert_by_key k r rows) = Some r.
Proof.
  intros Hr. apply has_key_primary_key in Hr.
  unfold select_by_key, insert_by_key.
  induction rows as [|r0 rows IH]; cbn; [now rewrite Hr|].
  destruct (has_key k r0) eqn:E0; [discriminate|]. intros Hnone.
  destruct (primary_key r0) as [| |j| | |]; cbn;
    try (rewrite E0; now apply IH).
  destruct (Z.ltb k j); cbn; [now rewrite Hr | rewrite E0; now apply IH].
Qed.

Lemma select_by_key_insert_other (k j : Z) (r : R) (rows : list R) :
  primary_key r = VInt k -> j <> k ->
  select_by_key j (insert_by_key k r rows) = select_by_key j rows.
Proof.
  intros Hr Hj.
  assert (Hjr : has_key j r = false).
  { unfold has_key. rewrite Hr. now apply Z.eqb_neq. }
  unfold select_by_key, insert_by_key.
  induction rows as [|r0 rows IH]; cbn; [now rewrite Hjr|].
  destruct (primary_key r0) as [| |i| | |]; cbn;
    try (destruct (has_key j r0); [reflexivity | exact IH]).
  destruct (Z.ltb k i); cbn.
  - now rewrite Hjr.
  - destruct (has_key j r0); [reflexivity | exact IH].
Qed.

Lemma rowids_insert_by_key (k x : Z) (r : R) (rows : list R) :
  primary_key r = VInt k ->
  In x (rowids (insert_by_key k r rows)) <-> x = k \/ In x (rowids rows).
Proof.
  intros Hr. unfold insert_by_key.
  induction rows as [|r0 rows IH]; cbn.
  - rewrite Hr. cbn. intuition.
  - destruct (primary_key r0) as [| |j| | |] eqn:H0; cbn;
      try (rewrite H0; exact IH).
    destruct (Z.ltb k j); cbn.
    + rewrite Hr, H0. cbn. intuition.
    + rewrite H0. cbn. rewrite IH. intuition.
Qed.

Lemma update_row_same_key (key : Z) (changed : list string) (r r' : R)
    (rows : list R) :
  List.existsb (has_key key) rows = true ->
  store_columns changed r = Some r' -> primary_key r' = VInt key ->
  update_row key changed r rows =
    Some (key, List.map (fun r0 => if has_key key r0 then r' else r0) rows).
Proof.
  intros Hex Hstore Hpk. unfold update_row.
  rewrite Hex, Hstore, Hpk. cbn. now rewrite Z.eqb_refl.
Qed.

Lemma update_row_new_key (key k : Z) (changed : list string) (r r' : R)
    (rows : list R) :
  List.existsb (has_key key) rows = true ->
  store_columns changed r = Some r' -> primary_key r' = VInt k ->
  k <> key -> List.existsb (has_key k) rows = false ->
  update_row key changed r rows =
    Some (k, insert_by_key k r' (delete_row key rows)).
Proof.
  intros Hex Hstore Hpk Hk Hfree. unfold update_row.
  rewrite Hex, Hstore, Hpk, Hfree. cbn.
  apply Z.eqb_neq in Hk. now rewrite Hk.
Qed.

(** An UPDATE to a key another row has fails. *)
Lemma update_row_taken_key (key k : Z) (changed : list string) (r r' : R)
    (rows : list R) :
  store_columns changed r = Some r' -> primary_key r' = VInt k ->
  k <> key -> List.existsb (has_key k) rows = true ->
  update_row key changed r rows = None.
Proof.
  intros Hstore Hpk Hk Htaken. unfold update_row.
  destruct (negb (List.existsb (has_key key) rows)); [reflexivity|].
  rewrite Hstore, Hpk, Htaken. apply Z.eqb_neq in Hk. now rewrite Hk.
Qed.
End KeyOrderFacts.

(** * The loop and the commit of the partial update *)

Lemma setattr_post_step {A} (key : string) (v : value) (r r1 : Post.t) (k : Z)
    (changed : list string) (db : DB) (rest : M A) :
  Post.set_column key v r = Some r1 ->
  (setattr (R:=Post.t) 0%nat key v ;; rest)
    {| bind := db; post_objects := [Instance r (Persistent k changed)];
       comment_objects := [] |} =
  rest {| bind := db;
          post_objects := [Instance r1 (Persistent k (changed ++ [key]))];
          comment_objects := [] |}.
Proof. intros E. unfold bind_M, setattr, deref. cbn. now rewrite E. Qed.

Lemma setattr_post_stop {A} (key : string) (v : value) (r : Post.t) (k : Z)
    (changed : list string) (db : DB) (rest : M A) :
  Post.set_column key v r = None ->
  (setattr (R:=Post.t) 0%nat key v ;; rest)
    {| bind := db; post_objects := [Instance r (Persistent k changed)];
       comment_objects := [] |} =
  Raise (Uncaught "ValueError")
    {| bind := db; post_objects := [Instance r (Persistent k changed)];
       comment_objects := [] |}.
Proof. intros E. unfold bind_M, setattr, deref. cbn. now rewrite E. Qed.

Lemma setattr_comment_step {A} (key : string) (v : value) (c c1 : Comment.t)
    (k : Z) (changed : list string) (db : DB) (rest : M A) :
  Comment.set_column key v c = Some c1 ->
  (setattr (R:=Comment.t) 0%nat key v ;; rest)
    {| bind := db; post_objects := [];
       comment_objects := [Instance c (Persistent k changed)] |} =
  rest {| bind := db; post_objects := [];
          comment_objects := [Instance c1 (Persistent k (changed ++ [key]))] |}.
Proof. intros E. unfold bind_M, setattr, deref. cbn. now rewrite E. Qed.

Lemma setattr_comment_stop {A} (key : string) (v : value) (c : Comment.t)
    (k : Z) (changed : list string) (db : DB) (rest : M A) :
  Comment.set_column key v c = None ->
  (setattr (R:=Comment.t) 0%nat key v ;; rest)
    {| bind := db; post_objects := [];
       comment_objects := [Instance c (Persistent k changed)] |} =
  Raise (Uncaught "ValueError")
    {| bind := db; post_objects := [];
       comment_objects := [Instance c (Persistent k changed)] |}.
Proof. intros E. unfold bind_M, setattr, deref. cbn. now rewrite E. Qed.

(** The loop of the partial update, on the one instance the session holds:
    it ends with the attributes [assign_all] computes and with the names of
    the mapping remembered as changed, or with the [ValueError] of a name
    that is no field, before anything is written. *)
Lemma for_each_setattr_post (patch_data : dict) (db : DB) (r : Post.t)
    (k : Z) (changed : list string) :
  match assign_all patch_data r with
  | Some r' =>
      for_each patch_data (fun '(key, value) => setattr (R:=Post.t) 0%nat key value)
        {| bind := db; post_objects := [Instance r (Persistent k changed)];
           comment_objects := [] |} =
      Return tt
        {| bind := db;
           post_objects :=
             [Instance r' (Persistent k (changed ++ List.map fst patch_data))];
           comment_objects := [] |}
  | None =>
      exists s',
        for_each patch_data
          (fun '(key, value) => setattr (R:=Post.t) 0%nat key value)
          {| bind := db; post_objects := [Instance r (Persistent k changed)];
             comment_objects := [] |} = Raise (Uncaught "ValueError") s'
        /\ bind s' = db
  end.
Proof.
  revert r changed.
  induction patch_data as [|[key v] patch_data IH]; intros r changed.
  - cbn. now rewrite List.app_nil_r.
  - cbn [assign_all for_each List.map fst].
    change (@set_column Post.t Post_Mapped key v r) with (Post.set_column key v r).
    destruct (Post.set_column key v r) as [r1|] eqn:E.
    + rewrite (setattr_post_step key v r r1 k changed db _ E).
      specialize (IH r1 (changed ++ [key])%list).
      destruct (assign_all patch_data r1) as [r'|]; [|exact IH].
      now rewrite <- List.app_assoc in IH.
    + rewrite (setattr_post_stop key v r k changed db _ E).
      eexists. split; reflexivity.
Qed.

Lemma for_each_setattr_comment (patch_data : dict) (db : DB) (c : Comment.t)
    (k : Z) (changed : list string) :
  match assign_all patch_data c with
  | Some c' =>
      for_each patch_data
        (fun '(key, value) => setattr (R:=Comment.t) 0%nat key value)
        {| bind := db; post_objects := [];
           comment_objects := [Instance c (Persistent k changed)] |} =
      Return tt
        {| bind := db; post_objects := [];
           comment_objects :=
             [Instance c' (Persistent k (changed ++ List.map fst patch_data))] |}
  | None =>
      exists s',
        for_each patch_data
          (fun '(key, value) => setattr (R:=Comment.t) 0%nat key value)
          {| bind := db; post_objects := [];
             comment_objects := [Instance c (Persistent k changed)] |} =
        Raise (Uncaught "ValueError") s'
        /\ bind s' = db
  end.
Proof.
  revert c changed.
  induction patch_data as [|[key v] patch_data IH]; intros c changed.
  - cbn. now rewrite List.app_nil_r.
  - cbn [assign_all for_each List.map fst].
    change (@set_column Comment.t Comment_Mapped key v c)
      with (Comment.set_column key v c).
    destruct (Comment.set_column key v c) as [c1|] eqn:E.
    + rewrite (setattr_comment_step key v c c1 k changed db _ E).
      specialize (IH c1 (changed ++ [key])%list).
      destruct (assign_all patch_data c1) as [c'|]; [|exact IH].
      now rewrite <- List.app_assoc in IH.
    + rewrite (setattr_comment_stop key v c k changed db _ E).
      eexists. split; reflexivity.
Qed.

(** The response to a partial update of an existing post, by what the
    assignments and the UPDATE come to. *)
Lemma app_PATCH_posts_id (post_id : Z) (key : string) (v : value)
    (patch_data : dict) (db : DB) (r : Post.t) :
  select_by_key post_id (posts db) = Some r ->
  app (PATCH_posts_id post_id ((key, v) :: patch_data)) db =
    match assign_all ((key, v) :: patch_data) r with
    | Some r' =>
        match update_row post_id (key :: List.map fst patch_data) r' (posts db) with
        | Some (k, rows') =>
            let db' := {| posts := rows'; comments := comments db |} in
            match select_by_key k rows' with
            | Some r'' => (ok (Post_fields r''), db')
            | None => (server_error, db')
            end
        | None => (server_error, db)
        end
    | None => (server_error, db)
    end.
Proof.
  intros Hsel.
  pose proof (for_each_setattr_post ((key, v) :: patch_data) db r post_id [])
    as Hloop.
  cbn [app]. unfold serve, update_post. unfold bind_M at 1 2.
  unfold session_get. cbn -[for_each assign_all]. rewrite Hsel.
  cbn -[for_each assign_all]. unfold bind_M at 1.
  destruct (assign_all ((key, v) :: patch_data) r) as [r'|].
  - cbn -[for_each] in Hloop. rewrite Hloop.
    unfold bind_M, session_add, session_commit, deref. cbn.
    destruct (update_row post_id (key :: List.map fst patch_data) r' (posts db))
      as [[k rows']|]; [|reflexivity].
    cbn. unfold session_refresh, response_model, bind_M, deref. cbn.
    destruct (select_by_key k rows'); reflexivity.
  - destruct Hloop as (s' & -> & Hs'). now rewrite Hs'.
Qed.

Lemma app_PATCH_comments_id (comment_id : Z) (key : string) (v : value)
    (patch_data : dict) (db : DB) (c : Comment.t) :
  select_by_key comment_id (comments db) = Some c ->
  app (PATCH_comments_id comment_id ((key, v) :: patch_data)) db =
    match assign_all ((key, v) :: patch_data) c with
    | Some c' =>
        match update_row comment_id (key :: List.map fst patch_data) c'
                (comments db) with
        | Some (k, rows') =>
            let db' := {| posts := posts db; comments := rows' |} in
            match select_by_key k rows' with
            | Some c'' => (ok (Comment_fields c''), db')
            | None => (server_error, db')
            end
        | None => (server_error, db)
        end
    | None => (server_error, db)
    end.
Proof.
  intros Hsel.
  pose proof (for_each_setattr_comment ((key, v) :: patch_data) db c comment_id [])
    as Hloop.
  cbn [app]. unfold serve, update_comment. unfold bind_M at 1 2.
  unfold session_get. cbn -[for_each assign_all]. rewrite Hsel.
  cbn -[for_each assign_all]. unfold bind_M at 1.
  destruct (assign_all ((key, v) :: patch_data) c) as [c'|].
  - cbn -[for_each] in Hloop. rewrite Hloop.
    unfold bind_M, session_add, session_commit, deref. cbn.
    destruct (update_row comment_id (key :: List.map fst patch_data) c'
                (comments db)) as [[k rows']|]; [|reflexivity].
    cbn. unfold session_refresh, response_model, bind_M, deref. cbn.
    destruct (select_by_key k rows'); reflexivity.
  - destruct Hloop as (s' & -> & Hs'). now rewrite Hs'.
Qed.

(** * Replacing *)

Lemma replace_post_run (post_id : Z) (post : CreatePostModel) (db : DB) :
  run (replace_post post_id post) db =
    match select_by_key post_id (posts db) with
    | Some r =>
        let r' := Post.mk (Post.id r) (VStr (cp_title post))
                    (VStr (cp_content post)) in
        Return 0%nat
          {| bind :=
               {| posts := List.map (fun r0 => if has_key post_id r0 then r' else r0)
                             (posts db);
                  comments := comments db |};
             post_objects := [Instance r' (Persistent post_id [])];
             comment_objects := [] |}
    | None =>
        Raise (missing post_id "Post not found")
          {| bind := db; post_objects := []; comment_objects := [] |}
    end.
Proof.
  unfold run, replace_post, missing. unfold bind_M at 1. unfold session_get. cbn.
  destruct (select_by_key post_id (posts db)) as [r|] eqn:Hsel;
    [|destruct (int64 post_id); reflexivity].
  cbn zeta.
  set (r' := Post.mk (Post.id r) (VStr (cp_title post)) (VStr (cp_content post))).
  assert (Hid : primary_key r' = VInt post_id).
  { apply select_by_key_Some in Hsel as [_ Hpk]. exact Hpk. }
  assert (Hex : List.existsb (has_key post_id) (posts db) = true).
  { rewrite select_by_key_exists. now rewrite Hsel. }
  pose proof (update_row_same_key post_id ["title"; "content"] r' r' (posts db)
                Hex eq_refl Hid) as Hup.
  pose proof (select_by_key_updated post_id post_id r' (posts db) Hid Hex
                (or_introl eq_refl)) as Hnew.
  unfold bind_M, dict_item, setattr, session_add, session_commit,
    session_refresh, deref. cbn.
  subst r'. rewrite Hup. cbn. rewrite Hnew. reflexivity.
Qed.

(** Replacing a comment hands the new [post_id] to the store, which takes
    it when it is within 64 bits. *)
Lemma replace_comment_run (comment_id : Z) (comment : CreateCommentModel)
    (db : DB) :
  run (replace_comment comment_id comment) db =
    match select_by_key comment_id (comments db) with
    | Some c =>
        let c' := Comment.mk (Comment.id c) (VInt (cc_post_id comment))
                    (VStr (cc_content comment)) in
        if int64 (cc_post_id comment)
        then
          Return 0%nat
            {| bind :=
                 {| posts := posts db;
                    comments :=
                      List.map (fun c0 => if has_key comment_id c0 then c' else c0)
                        (comments db) |};
               post_objects := [];
               comment_objects := [Instance c' (Persistent comment_id [])] |}
        else
          Raise (Uncaught "SQLAlchemyError")
            {| bind := db; post_objects := [];
               comment_objects :=
                 [Instance c' (Persistent comment_id ["post_id"; "content"])] |}
    | None =>
        Raise (missing comment_id "Comment not found")
          {| bind := db; post_objects := []; comment_objects := [] |}
    end.
Proof.
  unfold run, replace_comment, missing. unfold bind_M at 1. unfold session_get.
  cbn.
  destruct (select_by_key comment_id (comments db)) as [c|] eqn:Hsel;
    [|destruct (int64 comment_id); reflexivity].
  cbn zeta.
  set (c' := Comment.mk (Comment.id c) (VInt (cc_post_id comment))
               (VStr (cc_content comment))).
  assert (Hid : primary_key c' = VInt comment_id).
  { apply select_by_key_Some in Hsel as [_ Hpk]. exact Hpk. }
  assert (Hex : List.existsb (has_key comment_id) (comments db) = true).
  { rewrite select_by_key_exists. now rewrite Hsel. }
  destruct (int64 (cc_post_id comment)) eqn:Hrange.
  - assert (Hstore : store_columns ["post_id"; "content"] c' = Some c').
    { cbn. now rewrite Hrange. }
    pose proof (update_row_same_key comment_id ["post_id"; "content"] c' c'
                  (comments db) Hex Hstore Hid) as Hup.
    pose proof (select_by_key_updated comment_id comment_id c' (comments db)
                  Hid Hex (or_introl eq_refl)) as Hnew.
    unfold bind_M, dict_item, setattr, session_add, session_commit,
      session_refresh, deref. cbn.
    subst c'. rewrite Hup. cbn. rewrite Hnew. reflexivity.
  - assert (Hup : update_row comment_id ["post_id"; "content"] c' (comments db)
                  = None).
    { unfold update_row. rewrite Hex. cbn. now rewrite Hrange. }
    unfold bind_M, dict_item, setattr, session_add, session_commit,
      session_refresh, deref. cbn.
    subst c'. now rewrite Hup.
Qed.
(** * Exceptions and writes, compositionally *)

#[export] Instance Post_MappedLaws : MappedLaws Post.t.
Proof. constructor. reflexivity. Qed.

#[export] Instance Comment_MappedLaws : MappedLaws Comment.t.
Proof. constructor. reflexivity. Qed.

Create HintDb session discriminated.

Lemma read_only_ret {A} (a : A) : read_only (ret a).
Proof. intros s. reflexivity. Qed.

Lemma read_only_raise {A} (e : exception) : read_only (@raise A e).
Proof. intros s. reflexivity. Qed.

Lemma read_only_bind {A B} (m : M A) (k : A -> M B) :
  read_only m -> (forall a, read_only (k a)) -> read_only (bind_M m k).
Proof.
  intros Hm Hk s. unfold bind_M. specialize (Hm s).
  destruct (m s) as [a s'|e s']; cbn in *; [|exact Hm].
  rewrite <- Hm. apply Hk.
Qed.

Lemma no_http_ret {A} (a : A) : no_http (ret a).
Proof. intros s. exact I. Qed.

Lemma no_http_raise {A} (name : string) : no_http (@raise A (Uncaught name)).
Proof. intros s. exact I. Qed.

Lemma no_http_bind {A B} (m : M A) (k : A -> M B) :
  no_http m -> (forall a, no_http (k a)) -> no_http (bind_M m k).
Proof.
  intros Hm Hk s. unfold bind_M. specialize (Hm s).
  destruct (m s) as [a s'|e s']; [apply Hk | exact Hm].
Qed.

Lemma http_atomic_read_only {A} (m : M A) : read_only m -> http_atomic m.
Proof.
  intros Hm s. specialize (Hm s).
  destruct (m s) as [a s'|[code detail|name] s']; cbn in *; auto.
Qed.

Lemma http_atomic_no_http {A} (m : M A) : no_http m -> http_atomic m.
Proof.
  intros Hm s. specialize (Hm s).
  destruct (m s) as [a s'|[code detail|name] s']; cbn in *; tauto.
Qed.

(** Reads first, then something atomic. *)
Lemma http_atomic_after_read {A B} (m : M A) (k : A -> M B) :
  read_only m -> (forall a, http_atomic (k a)) -> http_atomic (bind_M m k).
Proof.
  intros Hm Hk s. unfold bind_M. specialize (Hm s).
  destruct (m s) as [a s'|[code detail|name] s'] eqn:E; cbn in *; auto.
  specialize (Hk a s').
  destruct (k a s') as [b s''|[code detail|name] s'']; auto. congruence.
Qed.

(** Something atomic, then a part that raises no [HTTPException]. *)
Lemma http_atomic_then {A B} (m : M A) (k : A -> M B) :
  http_atomic m -> (forall a, no_http (k a)) -> http_atomic (bind_M m k).
Proof.
  intros Hm Hk s. unfold bind_M. specialize (Hm s).
  destruct (m s) as [a s'|[code detail|name] s'] eqn:E; cbn in *; auto.
  specialize (Hk a s').
  destruct (k a s') as [b s''|[code detail|name] s'']; auto. destruct Hk.
Qed.

#[export] Hint Resolve read_only_ret read_only_raise no_http_ret no_http_raise
  : session.

Section SessionOpsFacts.
Context {R : Type} `{MappedLaws R}.

Lemma read_only_deref (h : ref R) : read_only (deref h).
Proof. intros s. unfold deref. destruct (objects s !! h); reflexivity. Qed.

Lemma no_http_deref (h : ref R) : no_http (deref h).
Proof. intros s. unfold deref. destruct (objects s !! h); exact I. Qed.

Lemma read_only_store (h : ref R) (o : instance R) : read_only (store h o).
Proof. intros s. cbn. apply bind_set_objects. Qed.

Lemma no_http_store (h : ref R) (o : instance R) : no_http (store h o).
Proof. intros s. exact I. Qed.

Lemma read_only_construct (r : R) : read_only (construct r).
Proof. intros s. cbn. apply bind_set_objects. Qed.

Lemma no_http_construct (r : R) : no_http (construct r).
Proof. intros s. exact I. Qed.

Lemma read_only_getattr (h : ref R) (column : R -> value) :
  read_only (getattr h column).
Proof.
  apply read_only_bind; [apply read_only_deref | intros; apply read_only_ret].
Qed.

Lemma no_http_getattr (h : ref R) (column : R -> value) :
  no_http (getattr h column).
Proof.
  apply no_http_bind; [apply no_http_deref | intros; apply no_http_ret].
Qed.

Lemma read_only_setattr (h : ref R) (name : string) (v : value) :
  read_only (setattr h name v).
Proof.
  apply read_only_bind; [apply read_only_deref|]. intros o.
  destruct (set_column name v (attrs o));
    [apply read_only_store | apply read_only_raise].
Qed.

Lemma no_http_setattr (h : ref R) (name : string) (v : value) :
  no_http (setattr h name v).
Proof.
  apply no_http_bind; [apply no_http_deref|]. intros o.
  destruct (set_column name v (attrs o));
    [apply no_http_store | apply no_http_raise].
Qed.

Lemma read_only_session_get (key : value) : read_only (session_get R key).
Proof.
  intros s. unfold session_get.
  destruct key; try reflexivity.
  destruct (select_by_key n (table (bind s)));
    [|destruct (int64 n); reflexivity].
  cbn. apply bind_set_objects.
Qed.

Lemma no_http_session_get (key : value) : no_http (session_get R key).
Proof.
  intros s. unfold session_get.
  destruct key; try exact I.
  destruct (select_by_key n (table (bind s))); [exact I|].
  destruct (int64 n); exact I.
Qed.

Lemma no_http_session_add (h : ref R) : no_http (session_add h).
Proof.
  apply no_http_bind; [apply no_http_deref|]. intros o.
  destruct (sa_state o); auto using no_http_store with session.
Qed.

Lemma no_http_session_delete (h : ref R) : no_http (session_delete h).
Proof.
  apply no_http_bind; [apply no_http_deref|]. intros o.
  destruct (sa_state o); auto using no_http_store with session.
Qed.

Lemma no_http_session_refresh (h : ref R) : no_http (session_refresh h).
Proof.
  apply no_http_bind; [apply no_http_deref|]. intros o.
  destruct (sa_state o); auto with session.
  intros s. destruct (select_by_key key (table (bind s))); exact I.
Qed.

Lemma read_only_select_all : read_only (select_all R).
Proof. intros s. reflexivity. Qed.

Lemma no_http_select_all : no_http (select_all R).
Proof. intros s. exact I. Qed.

Lemma read_only_select_where (column : R -> value) (n : Z) :
  read_only (select_where R column n).
Proof. intros s. unfold select_where. destruct (int64 n); reflexivity. Qed.

Lemma no_http_select_where (column : R -> value) (n : Z) :
  no_http (select_where R column n).
Proof. intros s. unfold select_where. destruct (int64 n); exact I. Qed.

Lemma no_http_response_model (fields : R -> value) (h : ref R) :
  no_http (response_model fields h).
Proof.
  apply no_http_bind; [apply no_http_deref | intros; apply no_http_ret].
Qed.
End SessionOpsFacts.

Lemma no_http_session_commit : no_http session_commit.
Proof.
  intros s. unfold session_commit.
  destruct (flush (post_objects s) (posts (bind s))) as [[pos prows]|];
    [|exact I].
  destruct (flush (comment_objects s) (comments (bind s))) as [[cos crows]|];
    exact I.
Qed.

Lemma no_http_dict_item (d : dict) (key : string) : no_http (dict_item d key).
Proof. unfold dict_item. destruct (dict_get d key); auto with session. Qed.

Lemma no_http_for_each {A} (l : list A) (body : A -> M unit) :
  (forall x, no_http (body x)) -> no_http (for_each l body).
Proof.
  intros Hbody. induction l as [|x l IH]; cbn.
  - apply no_http_ret.
  - apply no_http_bind; auto.
Qed.

#[export] Hint Resolve read_only_deref read_only_store read_only_construct
  read_only_getattr read_only_setattr read_only_session_get
  read_only_select_all read_only_select_where
  no_http_deref no_http_store no_http_construct no_http_getattr
  no_http_setattr no_http_session_get no_http_session_add
  no_http_session_delete no_http_session_refresh no_http_select_all
  no_http_select_where no_http_response_model no_http_session_commit
  no_http_dict_item : session.

(** Every step of a handler after its lookup. *)
Ltac no_http_steps :=
  repeat first
    [ solve [auto with session typeclass_instances]
    | apply no_http_for_each; intros [? ?]
    | apply no_http_bind; [|intros ?] ].

Ltac read_only_steps :=
  repeat first
    [ solve [auto with session typeclass_instances]
    | apply read_only_bind; [|intros ?] ].

(** A handler of the shape "look the row up, raise if it is missing, go on
    otherwise": its only [HTTPException] comes before any write. *)
Ltac atomic_by_lookup :=
  apply http_atomic_after_read;
  [ auto with session typeclass_instances
  | intros [?|];
    [ apply http_atomic_no_http; no_http_steps
    | apply http_atomic_read_only; auto with session ] ].

Lemma http_atomic_create_post post : http_atomic (create_post post).
Proof. apply http_atomic_no_http. unfold create_post. no_http_steps. Qed.

Lemma http_atomic_read_posts : http_atomic read_posts.
Proof. apply http_atomic_no_http. unfold read_posts. no_http_steps. Qed.

Lemma http_atomic_read_post post_id : http_atomic (read_post post_id).
Proof. unfold read_post. atomic_by_lookup. Qed.

Lemma http_atomic_replace_post post_id post :
  http_atomic (replace_post post_id post).
Proof. unfold replace_post. atomic_by_lookup. Qed.

Lemma http_atomic_update_post post_id patch_data :
  http_atomic (update_post post_id patch_data).
Proof. unfold update_post. atomic_by_lookup. Qed.

Lemma http_atomic_delete_post post_id : http_atomic (delete_post post_id).
Proof. unfold delete_post. atomic_by_lookup. Qed.

Lemma http_atomic_read_post_comments post_id :
  http_atomic (read_post_comments post_id).
Proof. apply http_atomic_no_http. unfold read_post_comments. no_http_steps. Qed.

Lemma http_atomic_create_comment comment : http_atomic (create_comment comment).
Proof. apply http_atomic_no_http. unfold create_comment. no_http_steps. Qed.

Lemma http_atomic_read_comments : http_atomic read_comments.
Proof. apply http_atomic_no_http. unfold read_comments. no_http_steps. Qed.

Lemma http_atomic_read_comment comment_id : http_atomic (read_comment comment_id).
Proof. unfold read_comment. atomic_by_lookup. Qed.

Lemma http_atomic_replace_comment comment_id comment :
  http_atomic (replace_comment comment_id comment).
Proof. unfold replace_comment. atomic_by_lookup. Qed.

Lemma http_atomic_update_comment comment_id patch_data :
  http_atomic (update_comment comment_id patch_data).
Proof. unfold update_comment. atomic_by_lookup. Qed.

Lemma http_atomic_delete_comment comment_id :
  http_atomic (delete_comment comment_id).
Proof. unfold delete_comment. atomic_by_lookup. Qed.

Lemma http_atomic_read_comment_post comment_id :
  http_atomic (read_comment_post comment_id).
Proof.
  apply http_atomic_read_only. unfold read_comment_post.
  apply read_only_bind; [auto with session typeclass_instances|].
  intros [comment|]; [|auto with session].
  apply read_only_bind; [auto with session typeclass_instances|]. intros post_id.
  apply read_only_bind; [auto with session typeclass_instances|].
  intros [post|]; auto with session.
Qed.

(** A request answered with status 404 left the database as it was, given a
    handler that is atomic and a shaping that raises no [HTTPException]. *)
Lemma serve_not_found {A} (handler : M A) (shape : A -> M value) (db : DB) :
  http_atomic handler -> (forall a, no_http (shape a)) ->
  status (serve handler shape db).1 = 404 -> (serve handler shape db).2 = db.
Proof.
  intros Hh Hs. unfold serve.
  pose proof (http_atomic_then handler shape Hh Hs
                {| bind := db; post_objects := []; comment_objects := [] |}) as Ha.
  destruct (bind_M handler (fun a => shape a) _) as [v s|[code detail|name] s];
    cbn; [discriminate | intros _; exact Ha | discriminate].
Qed.


(** * The routes, request by request *)

Lemma serve_raise_missing {A} (handler : M A) (shape : A -> M value) (db : DB)
    (id : Z) (detail : string) (s : Session) :
  handler {| bind := db; post_objects := []; comment_objects := [] |} =
    Raise (missing id detail) s ->
  serve handler shape db = (absent id detail, bind s).
Proof.
  intros E. unfold serve, bind_M. rewrite E. unfold missing, absent.
  destruct (int64 id); reflexivity.
Qed.

Lemma app_POST_posts (post : CreatePostModel) (db : DB) :
  app (POST_posts post) db =
    (ok (VDict [("title", VStr (cp_title post)); ("content", VStr (cp_content post))]),
     {| posts := posts db ++
                   [Post.mk (VInt (next_rowid (posts db))) (VStr (cp_title post))
                      (VStr (cp_content post))];
        comments := comments db |}).
Proof.
  cbn [app]. unfold serve. unfold bind_M at 1.
  pose proof (create_post_run post db) as Hrun. unfold run in Hrun. cbn zeta in Hrun.
  rewrite Hrun. reflexivity.
Qed.

Lemma app_POST_comments (comment : CreateCommentModel) (db : DB) :
  app (POST_comments comment) db =
    (ok (VDict [("post_id", VInt (cc_post_id comment));
                ("content", VStr (cc_content comment))]),
     {| posts := posts db;
        comments := comments db ++
                      [Comment.mk (VInt (next_rowid (comments db)))
                         (VInt (cc_post_id comment)) (VStr (cc_content comment))] |}).
Proof.
  cbn [app]. unfold serve. unfold bind_M at 1.
  pose proof (create_comment_run comment db) as Hrun. unfold run in Hrun.
  cbn zeta in Hrun. rewrite Hrun. reflexivity.
Qed.

Lemma app_GET_posts_id (post_id : Z) (db : DB) :
  app (GET_posts_id post_id) db =
    match select_by_key post_id (posts db) with
    | Some r => (ok (Post_fields r), db)
    | None => (absent post_id "Post not found", db)
    end.
Proof.
  pose proof (read_post_run post_id db) as Hrun. unfold run in Hrun.
  destruct (select_by_key post_id (posts db)).
  - cbn [app]. unfold serve. unfold bind_M at 1. rewrite Hrun. reflexivity.
  - cbn [app]. now rewrite (serve_raise_missing _ _ _ _ _ _ Hrun).
Qed.

Lemma app_GET_comments_id (comment_id : Z) (db : DB) :
  app (GET_comments_id comment_id) db =
    match select_by_key comment_id (comments db) with
    | Some c => (ok (Comment_fields c), db)
    | None => (absent comment_id "Comment not found", db)
    end.
Proof.
  pose proof (read_comment_run comment_id db) as Hrun. unfold run in Hrun.
  destruct (select_by_key comment_id (comments db)).
  - cbn [app]. unfold serve. unfold bind_M at 1. rewrite Hrun. reflexivity.
  - cbn [app]. now rewrite (serve_raise_missing _ _ _ _ _ _ Hrun).
Qed.

Lemma app_PUT_posts_id (post_id : Z) (post : CreatePostModel) (db : DB) :
  app (PUT_posts_id post_id post) db =
    match select_by_key post_id (posts db) with
    | Some r =>
        let r' := Post.mk (Post.id r) (VStr (cp_title post))
                    (VStr (cp_content post)) in
        (ok (Post_fields r'),
         {| posts := List.map (fun r0 => if has_key post_id r0 then r' else r0)
                       (posts db);
            comments := comments db |})
    | None => (absent post_id "Post not found", db)
    end.
Proof.
  pose proof (replace_post_run post_id post db) as Hrun. unfold run in Hrun.
  destruct (select_by_key post_id (posts db)).
  - cbn [app]. unfold serve. unfold bind_M at 1. rewrite Hrun. reflexivity.
  - cbn [app]. now rewrite (serve_raise_missing _ _ _ _ _ _ Hrun).
Qed.

Lemma app_PUT_comments_id (comment_id : Z) (comment : CreateCommentModel)
    (db : DB) :
  app (PUT_comments_id comment_id comment) db =
    match select_by_key comment_id (comments db) with
    | Some c =>
        let c' := Comment.mk (Comment.id c) (VInt (cc_post_id comment))
                    (VStr (cc_content comment)) in
        if int64 (cc_post_id comment)
        then
          (ok (Comment_fields c'),
           {| posts := posts db;
              comments :=
                List.map (fun c0 => if has_key comment_id c0 then c' else c0)
                  (comments db) |})
        else (server_error, db)
    | None => (absent comment_id "Comment not found", db)
    end.
Proof.
  pose proof (replace_comment_run comment_id comment db) as Hrun.
  unfold run in Hrun.
  destruct (select_by_key comment_id (comments db)).
  - cbn [app]. unfold serve. unfold bind_M at 1. rewrite Hrun. cbn zeta.
    destruct (int64 (cc_post_id comment)); reflexivity.
  - cbn [app]. now rewrite (serve_raise_missing _ _ _ _ _ _ Hrun).
Qed.

Lemma app_DELETE_posts_id (post_id : Z) (db : DB) :
  app (DELETE_posts_id post_id) db =
    match select_by_key post_id (posts db) with
    | Some r =>
        (ok (VDict [("message", VStr "Post deleted successfully")]),
         {| posts := delete_row post_id (posts db); comments := comments db |})
    | None => (absent post_id "Post not found", db)
    end.
Proof.
  pose proof (delete_post_run post_id db) as Hrun. unfold run in Hrun.
  destruct (select_by_key post_id (posts db)).
  - cbn [app]. unfold serve. unfold bind_M at 1. rewrite Hrun. reflexivity.
  - cbn [app]. now rewrite (serve_raise_missing _ _ _ _ _ _ Hrun).
Qed.

Lemma app_DELETE_comments_id (comment_id : Z) (db : DB) :
  app (DELETE_comments_id comment_id) db =
    match select_by_key comment_id (comments db) with
    | Some c =>
        (ok (VDict [("message", VStr "Comment deleted successfully")]),
         {| posts := posts db;
            comments := delete_row comment_id (comments db) |})
    | None => (absent comment_id "Comment not found", db)
    end.
Proof.
  pose proof (delete_comment_run comment_id db) as Hrun. unfold run in Hrun.
  destruct (select_by_key comment_id (comments db)).
  - cbn [app]. unfold serve. unfold bind_M at 1. rewrite Hrun. reflexivity.
  - cbn [app]. now rewrite (serve_raise_missing _ _ _ _ _ _ Hrun).
Qed.

Lemma app_GET_posts_id_comments (post_id : Z) (db : DB) :
  app (GET_posts_id_comments post_id) db =
    if int64 post_id
    then (ok (VList (List.map Comment_fields
                       (List.filter (fun c => eq_int (Comment.post_id c) post_id)
                          (comments db)))), db)
    else (server_error, db).
Proof.
  cbn [app]. unfold serve, read_post_comments, bind_M, select_where. cbn.
  destruct (int64 post_id); reflexivity.
Qed.

Lemma app_GET_posts (db : DB) :
  app GET_posts db = (ok (VList (List.map Post_fields (posts db))), db).
Proof. reflexivity. Qed.

Lemma app_GET_comments (db : DB) :
  app GET_comments db = (ok (VList (List.map Comment_fields (comments db))), db).
Proof. reflexivity. Qed.

Lemma app_GET_comments_id_post (comment_id : Z) (db : DB) :
  app (GET_comments_id_post comment_id) db =
    match select_by_key comment_id (comments db) with
    | Some c =>
        match Comment.post_id c with
        | VInt p =>
            match select_by_key p (posts db) with
            | Some r => (ok (Post_fields r), db)
            | None => (absent p "Post not found", db)
            end
        | _ => (not_found "Post not found", db)
        end
    | None => (absent comment_id "Comment not found", db)
    end.
Proof.
  pose proof (read_comment_post_run comment_id db) as Hrun. unfold run in Hrun.
  destruct (select_by_key comment_id (comments db)) as [c|].
  - cbn zeta in Hrun. cbn [app].
    destruct (Comment.post_id c);
      try (unfold serve; unfold bind_M at 1; rewrite Hrun; reflexivity).
    destruct (select_by_key n (posts db)).
    + unfold serve. unfold bind_M at 1. rewrite Hrun. reflexivity.
    + now rewrite (serve_raise_missing _ _ _ _ _ _ Hrun).
  - cbn [app]. now rewrite (serve_raise_missing _ _ _ _ _ _ Hrun).
Qed.

(** * What an UPDATE comes to *)

#[export] Instance Post_KeyLaws : KeyLaws Post.t.
Proof.
  constructor; try reflexivity.
  intros name v r r'. cbn. unfold Post.set_column.
  destruct (String.eqb name "id"); [now intros [= <-]|].
  destruct (String.eqb name "title"); [now intros [= <-]|].
  destruct (String.eqb name "content"); [now intros [= <-] | discriminate].
Qed.

#[export] Instance Comment_KeyLaws : KeyLaws Comment.t.
Proof.
  constructor; try reflexivity.
  intros name v r r'. cbn. unfold Comment.set_column.
  destruct (String.eqb name "id"); [now intros [= <-]|].
  destruct (String.eqb name "post_id"); [now intros [= <-]|].
  destruct (String.eqb name "content"); [now intros [= <-] | discriminate].
Qed.

Section UpdateFacts.
Context {R : Type} `{KeyLaws R}.

(** An integer key within 64 bits is written as it is, and no other column
    touches it. *)
Lemma store_columns_key (changed : list string) (r r' : R) (k : Z) :
  store_columns changed r = Some r' -> primary_key r = VInt k ->
  primary_key r' = VInt k.
Proof.
  revert r. induction changed as [|name changed IH]; intros r; cbn.
  - now intros [= <-].
  - destruct (column_type name) as [t|] eqn:Ht; [|discriminate].
    destruct (get_column name r) as [v|] eqn:Hget; [|discriminate].
    destruct (SQLite.bind_param v) as [b|] eqn:Hb; [|discriminate].
    destruct (SQLite.store_value t b) as [v'|] eqn:Hv; [|discriminate].
    destruct (set_column name v' r) as [r1|] eqn:Hset; [|discriminate].
    intros Hrest Hk. apply (IH r1 Hrest).
    rewrite (set_column_key name v' r r1 Hset).
    destruct (String.eqb_spec name "id") as [->|_]; [|exact Hk].
    rewrite key_column_type in Ht. injection Ht as <-.
    rewrite key_column_get, Hk in Hget. injection Hget as <-.
    cbn in Hb. destruct (int64 k); [|discriminate].
    injection Hb as <-. cbn in Hv. now injection Hv as <-.
Qed.

(** An UPDATE whose values are taken, to the old key or to a free one:
    afterwards the key selects the row written and every other key selects
    what it did. *)
Lemma update_row_stored (key k : Z) (changed : list string) (r r' : R)
    (rows : list R) :
  List.existsb (has_key key) rows = true ->
  store_columns changed r = Some r' -> primary_key r' = VInt k ->
  k = key \/ select_by_key k rows = None ->
  exists rows',
    update_row key changed r rows = Some (k, rows')
    /\ select_by_key k rows' = Some r'
    /\ (k <> key -> select_by_key key rows' = None)
    /\ (forall j, j <> key -> j <> k ->
          select_by_key j rows' = select_by_key j rows).
Proof.
  intros Hex Hstore Hpk Hk.
  destruct (Z.eq_dec k key) as [->|Hne].
  - exists (List.map (fun r0 => if has_key key r0 then r' else r0) rows).
    split; [now apply update_row_same_key|]. split; [|split].
    + apply select_by_key_updated; auto.
    + intros E. now contradiction E.
    + intros j Hj _. now apply select_by_key_update_other with (k := key).
  - destruct Hk as [Hk|Hfree]; [contradiction|].
    exists (insert_by_key k r' (delete_row key rows)).
    split; [|split; [|split]].
    + apply update_row_new_key; auto.
      rewrite select_by_key_exists. now rewrite Hfree.
    + apply select_by_key_inserted; [exact Hpk|].
      now rewrite select_by_key_delete_other.
    + intros _. rewrite select_by_key_insert_other; auto.
      apply select_by_key_deleted.
    + intros j Hj Hj'. rewrite select_by_key_insert_other; auto.
      now apply select_by_key_delete_other.
Qed.
End UpdateFacts.

(** * The claims *)

(** C1, as the code has it.  Creating a post persists one new row under a
    key no row had, and the handler returns that row, key included; the
    response body, shaped by [CreatePostModel] on both the POST and the PUT
    route, carries the title and the content and no [id] member. *)
Theorem create_post_persists_and_echoes (post : CreatePostModel) (db : DB) :
  let k := next_rowid (posts db) in
  let row := Post.mk (VInt k) (VStr (cp_title post)) (VStr (cp_content post)) in
  let db' := {| posts := posts db ++ [row]; comments := comments db |} in
  let echoed := ok (VDict [("title", VStr (cp_title post));
                           ("content", VStr (cp_content post))]) in
  select_by_key k (posts db) = None
  /\ returned (run (create_post post) db) = Some row
  /\ committed (run (create_post post) db) = db'
  /\ select_by_key k (posts db') = Some row
  /\ app (POST_posts post) db = (echoed, db')
  /\ app (PUT_posts post) db = (echoed, db')
  /\ body_field echoed "id" = None.
Proof.
  intros k row db' echoed.
  assert (Hfresh : select_by_key k (posts db) = None) by apply next_rowid_fresh.
  repeat split.
  - exact Hfresh.
  - rewrite create_post_run. reflexivity.
  - rewrite create_post_run. reflexivity.
  - subst db'. cbn [posts]. rewrite select_by_key_app, Hfresh.
    unfold has_key. cbn. now rewrite Z.eqb_refl.
  - apply app_POST_posts.
  - change (app (PUT_posts post) db) with (app (POST_posts post) db).
    apply app_POST_posts.
Qed.

(** C1 as stated fails: the response to creating the post {T, C} in an empty
    store has no [id] member. *)
Lemma create_post_response_has_no_id :
  ~ exists i,
      body_field
        (app (POST_posts {| cp_title := "T"; cp_content := "C" |})
           {| posts := []; comments := [] |}).1 "id" = Some i.
Proof. intros [i Hi]. vm_compute in Hi. discriminate. Qed.

(** C2, at the environment HOST=0.0.0.0 PORT=9000: the entry point reads
    host 0.0.0.0 and port 9000, and starts the listener on 127.0.0.1:8000. *)
Theorem main_binds_the_default :
  let environ : gmap string string :=
    <["PORT" := "9000"]> (<["HOST" := "0.0.0.0"]> ∅) in
  Main.host environ = "0.0.0.0"
  /\ Main.port environ = 9000
  /\ Main.main environ = ("127.0.0.1", 8000).
Proof. repeat split; vm_compute; reflexivity. Qed.

(** The listener address does not depend on the environment at all. *)
Lemma main_constant (environ : gmap string string) :
  Main.main environ = ("127.0.0.1", 8000).
Proof. reflexivity. Qed.

(** An unset port is 8000, an unusable one falls back to 8000 silently. *)
Lemma port_fallback :
  Main.port ∅ = 8000
  /\ Main.port (<["PORT" := "http"]> ∅) = 8000
  /\ Main.port (<["PORT" := " 80_80 "]> ∅) = 8080.
Proof. repeat split; vm_compute; reflexivity. Qed.

(** What [int] does not read falls back as well: the control character 28
    is not white space to it, and a text of more than 4300 digits is
    refused whatever it reads. *)
Example port_refused_texts :
  Main.port (<["PORT" := String (ascii_of_nat 28) "5"]> ∅) = 8000
  /\ Main.port (<["PORT" := String.concat "" (List.repeat "1" 4301)]> ∅) = 8000
  /\ Main.port (<["PORT" := String.concat "" (List.repeat "0" 4300)]> ∅) = 0.
Proof. repeat split; vm_compute; reflexivity. Qed.

(** The response to a PATCH with the empty mapping: the post as stored,
    nothing written. *)
Lemma app_PATCH_posts_id_nil (post_id : Z) (db : DB) (r : Post.t) :
  select_by_key post_id (posts db) = Some r ->
  app (PATCH_posts_id post_id []) db = (ok (Post_fields r), db).
Proof.
  intros Hsel. destruct db as [ps cs]. cbn [posts] in Hsel.
  cbn [app]. unfold serve, update_post. unfold bind_M at 1 2. unfold session_get.
  cbn. rewrite Hsel.
  unfold bind_M, session_add, session_commit, session_refresh, response_model,
    deref. cbn. rewrite Hsel. reflexivity.
Qed.





(** What the comment routes answer depends on the comment table alone. *)
Lemma comment_reads_depend_on_comments (db1 db2 : DB) :
  comments db1 = comments db2 ->
  (forall c, (app (GET_comments_id c) db1).1 = (app (GET_comments_id c) db2).1)
  /\ (forall p, (app (GET_posts_id_comments p) db1).1 =
                (app (GET_posts_id_comments p) db2).1)
  /\ (app GET_comments db1).1 = (app GET_comments db2).1.
Proof.
  intros E. repeat split.
  - intros c. rewrite !app_GET_comments_id, E.
    destruct (select_by_key c (comments db2)); reflexivity.
  - intros p. rewrite !app_GET_posts_id_comments, E.
    destruct (int64 p); reflexivity.
  - rewrite !app_GET_comments, E. reflexivity.
Qed.

(** C4.  Deleting a post, whether it succeeds or not, leaves the comment
    table exactly as it was, the comments of the deleted post included:
    every comment is still answered by id, by post and in the full list as
    before the delete. *)
Theorem delete_post_keeps_comments (db : DB) (post_id : Z) :
  let db' := (app (DELETE_posts_id post_id) db).2 in
  comments db' = comments db
  /\ (forall c, (app (GET_comments_id c) db').1 = (app (GET_comments_id c) db).1)
  /\ (forall p, (app (GET_posts_id_comments p) db').1 =
                (app (GET_posts_id_comments p) db).1)
  /\ (app GET_comments db').1 = (app GET_comments db).1.
Proof.
  intros db'.
  assert (E : comments db' = comments db).
  { subst db'. rewrite app_DELETE_posts_id.
    destruct (select_by_key post_id (posts db)); reflexivity. }
  split; [exact E | now apply comment_reads_depend_on_comments].
Qed.

(** A comment of post 1 is still served after post 1 was deleted. *)
Example orphan_comment_is_served :
  let db := {| posts := [post_one];
               comments := [Comment.mk (VInt 1) (VInt 1) (VStr "first")] |} in
  app (DELETE_posts_id 1) db =
    (ok (VDict [("message", VStr "Post deleted successfully")]), store_orphan)
  /\ app (GET_comments_id 1) store_orphan =
       (ok (VDict [("id", VInt 1); ("post_id", VInt 1); ("content", VStr "first")]),
        store_orphan).
Proof. split; reflexivity. Qed.




(** C6.  The id assigned when the post {T, C} is created is the id of the
    object the handler returns; fetching that id afterwards answers with
    that id and with a title and a content identical to T and C. *)
Theorem create_then_read_post (post : CreatePostModel) (db : DB) :
  let k := next_rowid (posts db) in
  let db' := (app (POST_posts post) db).2 in
  returned (run (create_post post) db) =
    Some (Post.mk (VInt k) (VStr (cp_title post)) (VStr (cp_content post)))
  /\ app (GET_posts_id k) db' =
       (ok (VDict [("id", VInt k); ("title", VStr (cp_title post));
                   ("content", VStr (cp_content post))]), db').
Proof.
  intros k db'. split.
  - rewrite create_post_run. reflexivity.
  - subst db'. rewrite app_POST_posts. cbn [snd].
    rewrite app_GET_posts_id. cbn [posts].
    rewrite select_by_key_app. fold k. subst k. rewrite next_rowid_fresh.
    unfold has_key. cbn. now rewrite Z.eqb_refl.
Qed.




(** C8, as the code has it.  For a post id within 64 bits, listing its
    comments answers 200 with exactly the comments whose [post_id] is that
    integer, each as often and in the order the table has it, and so with
    the empty list when there is none.  No post is looked up: the answer is
    the same whether or not the post exists, and the database is not
    changed. *)
Theorem read_post_comments_exact (db : DB) (post_id : Z) :
  int64 post_id = true ->
  exists l : list Comment.t,
    run (read_post_comments post_id) db =
      Return l {| bind := db; post_objects := []; comment_objects := [] |}
    /\ app (GET_posts_id_comments post_id) db =
         (ok (VList (List.map Comment_fields l)), db)
    /\ l = List.filter (fun c => eq_int (Comment.post_id c) post_id) (comments db)
    /\ (forall c, In c l <-> In c (comments db) /\ Comment.post_id c = VInt post_id)
    /\ ((forall c, In c (comments db) -> Comment.post_id c <> VInt post_id) ->
        l = []).
Proof.
  intros Hrange.
  assert (Heq : forall c, eq_int (Comment.post_id c) post_id = true <->
                          Comment.post_id c = VInt post_id).
  { intros c. unfold eq_int.
    destruct (Comment.post_id c) as [| |n| | |]; split; try discriminate.
    - intros E. apply Z.eqb_eq in E. now subst.
    - intros E. injection E as ->. apply Z.eqb_refl. }
  exists (List.filter (fun c => eq_int (Comment.post_id c) post_id) (comments db)).
  split.
  { unfold run, read_post_comments, bind_M, select_where. cbn.
    now rewrite Hrange. }
  split; [rewrite app_GET_posts_id_comments; now rewrite Hrange|].
  split; [reflexivity|].
  split.
  - intros c. rewrite List.filter_In, Heq. reflexivity.
  - induction (comments db) as [|c0 cs IH]; intros Hnone; [reflexivity|].
    cbn [List.filter]. destruct (eq_int (Comment.post_id c0) post_id) eqn:E.
    + apply Heq in E. exfalso. apply (Hnone c0); [now left | exact E].
    + apply IH. intros c Hin. apply Hnone. now right.
Qed.

(** C8 at the store holding post 1 and one comment on it: the comments of
    post 9, which does not exist. *)
Lemma read_post_comments_exact_witness :
  int64 9 = true
  /\ app (GET_posts_id_comments 9) store_commented =
       (ok (VList []), store_commented).
Proof.
  split; [reflexivity|].
  destruct (read_post_comments_exact store_commented 9 eq_refl)
    as (l & _ & Happ & Hl & _).
  rewrite Happ, Hl. reflexivity.
Defined.

(** C8 as stated fails beyond 64 bits: listing the comments of the post id
    2^63 is an error, answered 500. *)
Lemma read_post_comments_beyond_64_bits :
  status (app (GET_posts_id_comments beyond_int64) store_empty).1 <> 200
  /\ app (GET_posts_id_comments beyond_int64) store_empty =
       (server_error, store_empty).
Proof. repeat split; vm_compute; discriminate. Qed.




Lemma no_http_response_list {R} (fields : R -> value) (l : list R) :
  no_http (response_list fields l).
Proof. apply no_http_ret. Qed.

Lemma no_http_response_dict (d : dict) : no_http (response_dict d).
Proof. apply no_http_ret. Qed.

(** C10.  Whatever the request, if it is answered with status 404 then the
    database after it is the database before it: no row of either table was
    created, changed or removed.  This covers get, replace, patch and delete
    by id on posts and on comments, and the post of a comment. *)
Theorem not_found_leaves_store (req : request) (db : DB) :
  status (app req db).1 = 404 -> (app req db).2 = db.
Proof.
  destruct req; cbn [app]; apply serve_not_found;
    auto using http_atomic_create_post, http_atomic_read_posts,
      http_atomic_read_post, http_atomic_replace_post, http_atomic_update_post,
      http_atomic_delete_post, http_atomic_read_post_comments,
      http_atomic_create_comment, http_atomic_read_comments,
      http_atomic_read_comment, http_atomic_replace_comment,
      http_atomic_update_comment, http_atomic_delete_comment,
      http_atomic_read_comment_post, no_http_response_list,
      no_http_response_dict with session typeclass_instances.
Qed.

(** C10 at the empty store: fetching post 99999. *)
Lemma not_found_leaves_store_witness :
  status (app (GET_posts_id 99999) store_empty).1 = 404
  /\ (app (GET_posts_id 99999) store_empty).2 = store_empty.
Proof.
  split; [reflexivity|].
  apply (not_found_leaves_store (GET_posts_id 99999) store_empty). reflexivity.
Defined.

(** * Beyond the claims: reads, status codes *)

Lemma read_only_response_model {R} `{MappedLaws R} (fields : R -> value)
    (h : ref R) :
  read_only (response_model fields h).
Proof.
  apply read_only_bind; [apply read_only_deref | intros; apply read_only_ret].
Qed.

Lemma read_only_response_list {R} (fields : R -> value) (l : list R) :
  read_only (response_list fields l).
Proof. apply read_only_ret. Qed.

Lemma read_only_read_post post_id : read_only (read_post post_id).
Proof.
  unfold read_post. apply read_only_bind; [auto with session typeclass_instances|].
  intros [post|]; auto with session.
Qed.

Lemma read_only_read_comment comment_id : read_only (read_comment comment_id).
Proof.
  unfold read_comment.
  apply read_only_bind; [auto with session typeclass_instances|].
  intros [comment|]; auto with session.
Qed.

Lemma read_only_read_comment_post comment_id :
  read_only (read_comment_post comment_id).
Proof.
  unfold read_comment_post.
  apply read_only_bind; [auto with session typeclass_instances|].
  intros [comment|]; [|auto with session].
  apply read_only_bind; [auto with session typeclass_instances|]. intros post_id.
  apply read_only_bind; [auto with session typeclass_instances|].
  intros [post|]; auto with session.
Qed.

Lemma read_only_read_posts : read_only read_posts.
Proof. unfold read_posts. read_only_steps. Qed.

Lemma read_only_read_comments : read_only read_comments.
Proof. unfold read_comments. read_only_steps. Qed.

Lemma read_only_read_post_comments post_id :
  read_only (read_post_comments post_id).
Proof. unfold read_post_comments. read_only_steps. Qed.

Lemma serve_read_only {A} (handler : M A) (shape : A -> M value) (db : DB) :
  read_only handler -> (forall a, read_only (shape a)) ->
  (serve handler shape db).2 = db.
Proof.
  intros Hh Hs. unfold serve.
  pose proof (read_only_bind handler shape Hh Hs
                {| bind := db; post_objects := []; comment_objects := [] |}) as E.
  destruct (bind_M handler (fun a => shape a) _) as [v s|[code detail|name] s];
    exact E.
Qed.

(** X1.  A GET request writes nothing: whatever it answers, found or not,
    the database after it is the database before it. *)
Theorem get_requests_write_nothing (req : request) (db : DB) :
  is_GET req = true -> (app req db).2 = db.
Proof.
  destruct req; cbn [is_GET]; try discriminate; intros _; cbn [app];
    apply serve_read_only;
    auto using read_only_read_posts, read_only_read_post,
      read_only_read_post_comments, read_only_read_comments,
      read_only_read_comment, read_only_read_comment_post,
      read_only_response_list, read_only_response_model
      with typeclass_instances.
Qed.

Lemma get_requests_write_nothing_witness :
  is_GET (GET_comments_id_post 1) = true
  /\ (app (GET_comments_id_post 1) store_commented).2 = store_commented.
Proof.
  split; [reflexivity|].
  apply (get_requests_write_nothing (GET_comments_id_post 1) store_commented).
  reflexivity.
Defined.

Lemma only_404_no_http {A} (m : M A) : no_http m -> only_404 m.
Proof.
  intros Hm s. specialize (Hm s).
  destruct (m s) as [a s'|[code detail|name] s']; tauto.
Qed.

Lemma only_404_raise {A} (detail : string) :
  only_404 (@raise A (HTTPException 404 detail)).
Proof. intros s. reflexivity. Qed.

Lemma only_404_bind {A B} (m : M A) (k : A -> M B) :
  only_404 m -> (forall a, only_404 (k a)) -> only_404 (bind_M m k).
Proof.
  intros Hm Hk s. unfold bind_M. specialize (Hm s).
  destruct (m s) as [a s'|e s']; [apply Hk | exact Hm].
Qed.

(** Every [raise] of a handler carries the status 404. *)
Ltac only_404_steps :=
  repeat first
    [ solve [apply only_404_no_http; no_http_steps]
    | apply only_404_raise
    | apply only_404_bind; [|intros [?|]]
    | apply only_404_bind; [|intros ?] ].

Lemma only_404_create_post post : only_404 (create_post post).
Proof. unfold create_post. only_404_steps. Qed.

Lemma only_404_read_posts : only_404 read_posts.
Proof. unfold read_posts. only_404_steps. Qed.

Lemma only_404_read_post post_id : only_404 (read_post post_id).
Proof. unfold read_post. only_404_steps. Qed.

Lemma only_404_replace_post post_id post : only_404 (replace_post post_id post).
Proof. unfold replace_post. only_404_steps. Qed.

Lemma only_404_update_post post_id patch_data :
  only_404 (update_post post_id patch_data).
Proof. unfold update_post. only_404_steps. Qed.

Lemma only_404_delete_post post_id : only_404 (delete_post post_id).
Proof. unfold delete_post. only_404_steps. Qed.

Lemma only_404_read_post_comments post_id : only_404 (read_post_comments post_id).
Proof. unfold read_post_comments. only_404_steps. Qed.

Lemma only_404_create_comment comment : only_404 (create_comment comment).
Proof. unfold create_comment. only_404_steps. Qed.

Lemma only_404_read_comments : only_404 read_comments.
Proof. unfold read_comments. only_404_steps. Qed.

Lemma only_404_read_comment comment_id : only_404 (read_comment comment_id).
Proof. unfold read_comment. only_404_steps. Qed.

Lemma only_404_replace_comment comment_id comment :
  only_404 (replace_comment comment_id comment).
Proof. unfold replace_comment. only_404_steps. Qed.

Lemma only_404_update_comment comment_id patch_data :
  only_404 (update_comment comment_id patch_data).
Proof. unfold update_comment. only_404_steps. Qed.

Lemma only_404_delete_comment comment_id : only_404 (delete_comment comment_id).
Proof. unfold delete_comment. only_404_steps. Qed.

Lemma only_404_read_comment_post comment_id :
  only_404 (read_comment_post comment_id).
Proof.
  unfold read_comment_post.
  apply only_404_bind; [apply only_404_no_http; no_http_steps|].
  intros [comment|]; [|apply only_404_raise].
  apply only_404_bind; [apply only_404_no_http; no_http_steps|]. intros post_id.
  apply only_404_bind; [apply only_404_no_http; no_http_steps|].
  intros [post|]; [apply only_404_no_http; no_http_steps | apply only_404_raise].
Qed.

Lemma serve_status {A} (handler : M A) (shape : A -> M value) (db : DB) :
  only_404 handler -> (forall a, no_http (shape a)) ->
  status (serve handler shape db).1 = 200
  \/ status (serve handler shape db).1 = 404
  \/ status (serve handler shape db).1 = 500.
Proof.
  intros Hh Hs. unfold serve.
  assert (Hk : forall a, only_404 (shape a)) by (intros; now apply only_404_no_http).
  pose proof (only_404_bind handler shape Hh Hk
                {| bind := db; post_objects := []; comment_objects := [] |}) as E.
  destruct (bind_M handler (fun a => shape a) _) as [v s|[code detail|name] s];
    cbn; auto.
Qed.

(** X2.  Every request that reaches a handler, its path and body having
    passed validation (a [request] is such a request; a body that fails
    validation is answered 422 before any handler runs), is answered with
    status 200, 404 or 500: the only exception a handler raises itself is
    the 404, and anything else that goes wrong is an internal server
    error. *)
Theorem status_is_200_404_or_500 (req : request) (db : DB) :
  status (app req db).1 = 200
  \/ status (app req db).1 = 404
  \/ status (app req db).1 = 500.
Proof.
  destruct req; cbn [app]; apply serve_status;
    auto using only_404_create_post, only_404_read_posts, only_404_read_post,
      only_404_replace_post, only_404_update_post, only_404_delete_post,
      only_404_read_post_comments, only_404_create_comment,
      only_404_read_comments, only_404_read_comment, only_404_replace_comment,
      only_404_update_comment, only_404_delete_comment,
      only_404_read_comment_post, no_http_response_list, no_http_response_dict
      with session typeclass_instances.
Qed.

(** * Beyond the claims: the comment handlers *)

(** The response to a partial update of a comment whose values the store
    takes and whose resulting key is the old one or a free one. *)
Lemma app_PATCH_comments_id_stored (comment_id k' : Z) (key : string) (v : value)
    (patch_data : dict) (db : DB) (c c' c'' : Comment.t) :
  select_by_key comment_id (comments db) = Some c ->
  assign_all ((key, v) :: patch_data) c = Some c' ->
  store_columns (key :: List.map fst patch_data) c' = Some c'' ->
  Comment.id c'' = VInt k' ->
  k' = comment_id \/ select_by_key k' (comments db) = None ->
  exists db',
    app (PATCH_comments_id comment_id ((key, v) :: patch_data)) db =
      (ok (Comment_fields c''), db')
    /\ select_by_key k' (comments db') = Some c''
    /\ (k' <> comment_id -> select_by_key comment_id (comments db') = None)
    /\ posts db' = posts db
    /\ (forall j, j <> comment_id -> j <> k' ->
          select_by_key j (comments db') = select_by_key j (comments db)).
Proof.
  intros Hsel Hall Hstore Hid Hk.
  assert (Hex : List.existsb (has_key comment_id) (comments db) = true).
  { rewrite select_by_key_exists. now rewrite Hsel. }
  destruct (update_row_stored (R:=Comment.t) comment_id k' _ c' c'' (comments db)
              Hex Hstore Hid Hk) as (rows' & Hup & Hnew & Hold & Hothers).
  exists {| posts := posts db; comments := rows' |}.
  rewrite (app_PATCH_comments_id comment_id key v patch_data db c Hsel), Hall, Hup.
  cbn zeta. rewrite Hnew. cbn [posts comments]. auto.
Qed.



(** X4.  For a comment id and a [post_id] within 64 bits: replacing a
    comment id that is absent is answered 404 "Comment not found" and
    changes nothing.  Replacing an existing comment stores and answers the
    comment with the same id and the supplied [post_id] and content, whether
    or not a post has that id; the posts and the comments under other ids
    are untouched. *)
Theorem replace_comment_overwrites (db : DB) (comment_id : Z)
    (comment : CreateCommentModel) :
  int64 comment_id = true ->
  int64 (cc_post_id comment) = true ->
  match select_by_key comment_id (comments db) with
  | None =>
      app (PUT_comments_id comment_id comment) db =
        (not_found "Comment not found", db)
  | Some c =>
      let c' := Comment.mk (VInt comment_id) (VInt (cc_post_id comment))
                  (VStr (cc_content comment)) in
      exists db',
        app (PUT_comments_id comment_id comment) db = (ok (Comment_fields c'), db')
        /\ select_by_key comment_id (comments db') = Some c'
        /\ posts db' = posts db
        /\ (forall j, j <> comment_id ->
              select_by_key j (comments db') = select_by_key j (comments db))
  end.
Proof.
  intros Hid Hparent.
  pose proof (app_PUT_comments_id comment_id comment db) as Happ.
  unfold absent in Happ. rewrite Hid, Hparent in Happ.
  destruct (select_by_key comment_id (comments db)) as [c|] eqn:Hsel;
    [|exact Happ].
  intros c'.
  assert (Hpk : Comment.id c = VInt comment_id).
  { now apply select_by_key_Some in Hsel as [_ Hpk]. }
  cbn zeta in Happ. rewrite Hpk in Happ. fold c' in Happ.
  assert (Hex : List.existsb (has_key comment_id) (comments db) = true).
  { rewrite select_by_key_exists. now rewrite Hsel. }
  eexists. split; [exact Happ|]. cbn [posts comments].
  split; [|split; [reflexivity|]].
  - now apply (select_by_key_updated (R:=Comment.t) comment_id comment_id c'); auto.
  - intros j Hj.
    now apply (select_by_key_update_other (R:=Comment.t) comment_id comment_id j c').
Qed.

(** X4 at the store holding post 1 and one comment on it: the comment is
    handed to post 42, which does not exist. *)
Lemma replace_comment_overwrites_witness :
  int64 1 = true
  /\ int64 42 = true
  /\ (app (PUT_comments_id 1 {| cc_post_id := 42; cc_content := "moved" |})
        store_commented).1 =
       ok (Comment_fields (Comment.mk (VInt 1) (VInt 42) (VStr "moved"))).
Proof.
  split; [reflexivity|]. split; [reflexivity|].
  destruct (replace_comment_overwrites store_commented 1
              {| cc_post_id := 42; cc_content := "moved" |} eq_refl eq_refl)
    as (db' & Happ & _).
  exact (f_equal fst Happ).
Defined.

(** X5.  For an existing comment, PATCH with the body {"content": s}, [s] a
    string, answers with the comment whose content is [s] and whose id and
    [post_id] are as before, and PATCH with {"post_id": n}, [n] an integer
    within 64 bits, hands the comment over to [n], whether or not a post has
    that id, keeping id and content.  Either way the result is what is then
    stored under the id, and no post and no other comment changes.  A null
    [post_id] is refused by the store: 500, nothing written; a [post_id]
    given as the text "42" is stored as the integer 42. *)
Theorem patch_comment_one_field (db : DB) (comment_id : Z) (c : Comment.t) :
  select_by_key comment_id (comments db) = Some c ->
  (forall s,
      let c' := Comment.mk (Comment.id c) (Comment.post_id c) (VStr s) in
      exists db',
        app (PATCH_comments_id comment_id [("content", VStr s)]) db =
          (ok (Comment_fields c'), db')
        /\ select_by_key comment_id (comments db') = Some c'
        /\ posts db' = posts db
        /\ (forall j, j <> comment_id ->
              select_by_key j (comments db') = select_by_key j (comments db)))
  /\
  (forall n,
      int64 n = true ->
      let c' := Comment.mk (Comment.id c) (VInt n) (Comment.content c) in
      exists db',
        app (PATCH_comments_id comment_id [("post_id", VInt n)]) db =
          (ok (Comment_fields c'), db')
        /\ select_by_key comment_id (comments db') = Some c'
        /\ posts db' = posts db
        /\ (forall j, j <> comment_id ->
              select_by_key j (comments db') = select_by_key j (comments db)))
  /\ app (PATCH_comments_id comment_id [("post_id", VNull)]) db = (server_error, db)
  /\
  (let c' := Comment.mk (Comment.id c) (VInt 42) (Comment.content c) in
   exists db',
     app (PATCH_comments_id comment_id [("post_id", VStr "42")]) db =
       (ok (Comment_fields c'), db')
     /\ select_by_key comment_id (comments db') = Some c').
Proof.
  intros Hsel.
  assert (Hpk : Comment.id c = VInt comment_id).
  { now apply select_by_key_Some in Hsel as [_ Hpk]. }
  split; [|split; [|split]].
  - intros s c'.
    destruct (app_PATCH_comments_id_stored comment_id comment_id "content"
                (VStr s) [] db c c' c' Hsel eq_refl eq_refl Hpk (or_introl eq_refl))
      as (db' & Happ & Hnew & _ & Hposts & Hothers).
    exists db'. split; [exact Happ|]. split; [exact Hnew|].
    split; [exact Hposts|]. intros j Hj. now apply Hothers.
  - intros n Hn c'.
    assert (Hstore : store_columns ["post_id"] c' = Some c').
    { cbn. now rewrite Hn. }
    destruct (app_PATCH_comments_id_stored comment_id comment_id "post_id"
                (VInt n) [] db c c' c' Hsel eq_refl Hstore Hpk (or_introl eq_refl))
      as (db' & Happ & Hnew & _ & Hposts & Hothers).
    exists db'. split; [exact Happ|]. split; [exact Hnew|].
    split; [exact Hposts|]. intros j Hj. now apply Hothers.
  - rewrite (app_PATCH_comments_id comment_id "post_id" VNull [] db c Hsel). cbn.
    assert (Hup : update_row comment_id ["post_id"]
                    (Comment.mk (Comment.id c) VNull (Comment.content c))
                    (comments db) = None).
    { unfold update_row. cbn.
      now destruct (negb (List.existsb (has_key comment_id) (comments db))). }
    now rewrite Hup.
  - intros c'.
    assert (Hstore : store_columns ["post_id"]
                       (Comment.mk (Comment.id c) (VStr "42")
                          (Comment.content c)) = Some c').
    { reflexivity. }
    destruct (app_PATCH_comments_id_stored comment_id comment_id "post_id"
                (VStr "42") [] db c _ c' Hsel eq_refl Hstore Hpk
                (or_introl eq_refl))
      as (db' & Happ & Hnew & _).
    exists db'. auto.
Qed.

(** X5 at the store holding post 1 and one comment on it. *)
Lemma patch_comment_one_field_witness :
  select_by_key 1 (comments store_commented) =
    Some (Comment.mk (VInt 1) (VInt 1) (VStr "first"))
  /\ (app (PATCH_comments_id 1 [("content", VStr "edited")]) store_commented).1 =
       ok (Comment_fields (Comment.mk (VInt 1) (VInt 1) (VStr "edited")))
  /\ (app (PATCH_comments_id 1 [("post_id", VInt 42)]) store_commented).1 =
       ok (Comment_fields (Comment.mk (VInt 1) (VInt 42) (VStr "first")))
  /\ app (PATCH_comments_id 1 [("post_id", VNull)]) store_commented =
       (server_error, store_commented).
Proof.
  split; [reflexivity|].
  destruct (patch_comment_one_field store_commented 1
              (Comment.mk (VInt 1) (VInt 1) (VStr "first")) eq_refl)
    as (Hcontent & Hparent & Hnull & _).
  split; [|split].
  - destruct (Hcontent "edited") as (db' & Happ & _).
    exact (f_equal fst Happ).
  - destruct (Hparent 42 eq_refl) as (db' & Happ & _).
    exact (f_equal fst Happ).
  - exact Hnull.
Defined.

(** X6.  For a comment id within 64 bits: deleting a comment id that is
    absent is answered 404 "Comment not found" and changes nothing.
    Deleting an existing comment answers with the confirmation message,
    removes the rows under that id and no other, and leaves the posts
    alone; a fetch of the id and a second delete are then both answered 404
    "Comment not found". *)
Theorem delete_comment_then_read (db : DB) (comment_id : Z) :
  int64 comment_id = true ->
  match select_by_key comment_id (comments db) with
  | None =>
      app (DELETE_comments_id comment_id) db = (not_found "Comment not found", db)
  | Some _ =>
      let db' := {| posts := posts db;
                    comments := delete_row comment_id (comments db) |} in
      app (DELETE_comments_id comment_id) db =
        (ok (VDict [("message", VStr "Comment deleted successfully")]), db')
      /\ app (GET_comments_id comment_id) db' = (not_found "Comment not found", db')
      /\ app (DELETE_comments_id comment_id) db' =
           (not_found "Comment not found", db')
      /\ (forall j, j <> comment_id ->
            select_by_key j (comments db') = select_by_key j (comments db))
  end.
Proof.
  intros Hid.
  pose proof (app_DELETE_comments_id comment_id db) as Happ.
  unfold absent in Happ. rewrite Hid in Happ.
  destruct (select_by_key comment_id (comments db)) as [c|]; [|exact Happ].
  intros db'. split; [exact Happ|]. split; [|split].
  - rewrite app_GET_comments_id. subst db'. cbn [comments].
    rewrite select_by_key_deleted. unfold absent. now rewrite Hid.
  - rewrite app_DELETE_comments_id. subst db'. cbn [comments].
    rewrite select_by_key_deleted. unfold absent. now rewrite Hid.
  - intros j Hj. now apply select_by_key_delete_other.
Qed.

(** X6 at the store holding post 1 and one comment on it: deleting the
    comment leaves the post alone. *)
Lemma delete_comment_then_read_witness :
  int64 1 = true
  /\ app (DELETE_comments_id 1) store_commented =
       (ok (VDict [("message", VStr "Comment deleted successfully")]),
        store_one_post)
  /\ app (GET_comments_id 1) store_one_post =
       (not_found "Comment not found", store_one_post).
Proof.
  split; [reflexivity|].
  pose proof (delete_comment_then_read store_commented 1 eq_refl) as Hdel.
  cbn in Hdel. destruct Hdel as (Happ & Hget & _).
  split; [exact Happ | exact Hget].
Defined.

(** X7.  The post of a comment is the post of its [post_id]: for a comment
    whose [post_id] is the integer [p], GET /comments/{id}/post answers
    exactly as GET /posts/{p} does, the 404 included; a [post_id] that is no
    integer selects no post.  A comment id that no comment has is answered
    404 "Comment not found" when it is within 64 bits, and 500 beyond. *)
Theorem comment_post_agrees_with_post (db : DB) (comment_id : Z) :
  match select_by_key comment_id (comments db) with
  | None =>
      app (GET_comments_id_post comment_id) db =
        (if int64 comment_id then not_found "Comment not found" else server_error,
         db)
  | Some c =>
      match Comment.post_id c with
      | VInt p =>
          app (GET_comments_id_post comment_id) db = app (GET_posts_id p) db
      | _ =>
          app (GET_comments_id_post comment_id) db =
            (not_found "Post not found", db)
      end
  end.
Proof.
  rewrite app_GET_comments_id_post.
  destruct (select_by_key comment_id (comments db)) as [c|]; [|reflexivity].
  destruct (Comment.post_id c); try reflexivity.
  now rewrite app_GET_posts_id.
Qed.

(** X8.  After a comment on post [p] is created, [p] and the next key of
    the comment table being within 64 bits, the listing of [p] is the
    listing before followed by the new comment, the listing of every other
    post is as before, and the full listing is the one before followed by
    the new comment. *)
Theorem created_comment_is_listed (comment : CreateCommentModel) (db : DB) :
  int64 (cc_post_id comment) = true ->
  int64 (next_rowid (comments db)) = true ->
  let p := cc_post_id comment in
  let row := Comment.mk (VInt (next_rowid (comments db))) (VInt p)
               (VStr (cc_content comment)) in
  let db' := (app (POST_comments comment) db).2 in
  (app (GET_posts_id_comments p) db').1 =
    ok (VList (List.map Comment_fields
                 (List.filter (fun c => eq_int (Comment.post_id c) p) (comments db)
                  ++ [row])%list))
  /\ (forall q, q <> p ->
        (app (GET_posts_id_comments q) db').1 = (app (GET_posts_id_comments q) db).1)
  /\ (app GET_comments db').1 =
       ok (VList (List.map Comment_fields (comments db ++ [row])%list)).
Proof.
  intros Hp _ p row db'. subst db'. rewrite app_POST_comments. cbn [snd].
  split; [|split].
  - rewrite app_GET_posts_id_comments. fold p in Hp. rewrite Hp.
    cbn [fst comments].
    rewrite List.filter_app. cbn. fold p. now rewrite Z.eqb_refl.
  - intros q Hq. rewrite !app_GET_posts_id_comments.
    destruct (int64 q); [|reflexivity]. cbn [fst comments].
    rewrite List.filter_app. cbn. fold p.
    destruct (Z.eqb_spec p q) as [E|_]; [now subst|].
    now rewrite List.app_nil_r.
  - reflexivity.
Qed.

(** X8 at the store holding post 1 and one comment on it. *)
Lemma created_comment_is_listed_witness :
  int64 1 = true
  /\ int64 (next_rowid (comments store_commented)) = true
  /\ (app (GET_posts_id_comments 1)
        (app (POST_comments {| cc_post_id := 1; cc_content := "second" |})
           store_commented).2).1 =
       ok (VList [Comment_fields (Comment.mk (VInt 1) (VInt 1) (VStr "first"));
                  Comment_fields (Comment.mk (VInt 2) (VInt 1) (VStr "second"))]).
Proof.
  split; [reflexivity|]. split; [reflexivity|].
  destruct (created_comment_is_listed
              {| cc_post_id := 1; cc_content := "second" |} store_commented
              eq_refl eq_refl) as (Hlist & _).
  exact Hlist.
Defined.

(** * Beyond the claims: more on the post handlers *)

(** X9.  After a post is created in a table whose next key is within 64
    bits, the listing of posts is the listing before followed by the new
    post, every other id is answered exactly as before, and the comments
    are as they were. *)
Theorem created_post_is_listed (post : CreatePostModel) (db : DB) :
  int64 (next_rowid (posts db)) = true ->
  let k := next_rowid (posts db) in
  let row := Post.mk (VInt k) (VStr (cp_title post)) (VStr (cp_content post)) in
  let db' := (app (POST_posts post) db).2 in
  (app GET_posts db').1 = ok (VList (List.map Post_fields (posts db ++ [row])%list))
  /\ (forall j, j <> k ->
        (app (GET_posts_id j) db').1 = (app (GET_posts_id j) db).1)
  /\ comments db' = comments db.
Proof.
  intros _ k row db'. subst db'. rewrite app_POST_posts. cbn [snd].
  split; [reflexivity|]. split; [|reflexivity].
  intros j Hj. rewrite !app_GET_posts_id. cbn [posts].
  rewrite select_by_key_app.
  destruct (select_by_key j (posts db)); [reflexivity|].
  unfold has_key. cbn. fold k.
  destruct (Z.eqb_spec k j) as [E|_]; [now subst | reflexivity].
Qed.

(** X9 at the store holding the post 1 = {T, C}. *)
Lemma created_post_is_listed_witness :
  int64 (next_rowid (posts store_one_post)) = true
  /\ (app GET_posts
        (app (POST_posts {| cp_title := "U"; cp_content := "D" |})
           store_one_post).2).1 =
       ok (VList [Post_fields post_one;
                  Post_fields (Post.mk (VInt 2) (VStr "U") (VStr "D"))]).
Proof.
  split; [reflexivity|].
  destruct (created_post_is_listed {| cp_title := "U"; cp_content := "D" |}
              store_one_post eq_refl) as (Hlist & _).
  exact Hlist.
Defined.

Lemma replace_twice {R : Type} `{Mapped R} (key : Z) (r : R) (rows : list R) :
  has_key key r = true ->
  List.map (fun r0 => if has_key key r0 then r else r0)
    (List.map (fun r0 => if has_key key r0 then r else r0) rows) =
  List.map (fun r0 => if has_key key r0 then r else r0) rows.
Proof.
  intros Hr. rewrite List.map_map. apply List.map_ext. intros r0.
  destruct (has_key key r0) eqn:E; [now rewrite Hr | now rewrite E].
Qed.

(** X10.  Replacing is idempotent: the same PUT sent a second time is
    answered as the first one was and leaves the database the first one
    left. *)
Theorem replace_post_twice (db : DB) (post_id : Z) (post : CreatePostModel) :
  app (PUT_posts_id post_id post) (app (PUT_posts_id post_id post) db).2 =
  app (PUT_posts_id post_id post) db.
Proof.
  rewrite (app_PUT_posts_id post_id post db).
  destruct (select_by_key post_id (posts db)) as [r|] eqn:Hsel; cbn [snd].
  - cbn zeta.
    set (r' := Post.mk (Post.id r) (VStr (cp_title post)) (VStr (cp_content post))).
    assert (Hpk : primary_key r' = VInt post_id).
    { now apply select_by_key_Some in Hsel as [_ Hpk]. }
    assert (Hex : List.existsb (has_key post_id) (posts db) = true).
    { rewrite select_by_key_exists. now rewrite Hsel. }
    rewrite app_PUT_posts_id. cbn [posts comments].
    rewrite (select_by_key_updated post_id post_id r' (posts db) Hpk Hex
               (or_introl eq_refl)).
    cbn zeta. cbn [Post.id r'].
    change (Post.mk (Post.id r) (VStr (cp_title post)) (VStr (cp_content post)))
      with r'.
    rewrite replace_twice; [reflexivity|].
    now apply has_key_primary_key.
  - rewrite app_PUT_posts_id. now rewrite Hsel.
Qed.

(** X11.  A PATCH with the empty mapping is a GET: it answers with the post
    as stored, or 404, and writes nothing. *)
Theorem patch_nothing_is_get (db : DB) (post_id : Z) :
  app (PATCH_posts_id post_id []) db = app (GET_posts_id post_id) db.
Proof.
  rewrite app_GET_posts_id.
  destruct (select_by_key post_id (posts db)) as [r|] eqn:Hsel.
  - now apply app_PATCH_posts_id_nil.
  - destruct db as [ps cs]. cbn [posts] in Hsel.
    cbn [app]. unfold serve, update_post. unfold bind_M at 1 2.
    unfold session_get. cbn. rewrite Hsel. unfold absent.
    destruct (int64 post_id); reflexivity.
Qed.

(** X12.  PATCH can move a post: with the body {"id": k}, [k] an integer
    within 64 bits that no post has, the post is answered and stored under
    [k] with its title and content, at the place of [k] in key order; the
    old id is from then on answered 404, and the comments, those of the old
    id included, are not touched. *)
Theorem patch_id_moves_post (db : DB) (post_id k' : Z) (r : Post.t) :
  select_by_key post_id (posts db) = Some r ->
  int64 post_id = true ->
  int64 k' = true ->
  k' <> post_id ->
  select_by_key k' (posts db) = None ->
  let r' := Post.mk (VInt k') (Post.title r) (Post.content r) in
  let db' := {| posts := insert_by_key k' r' (delete_row post_id (posts db));
                comments := comments db |} in
  app (PATCH_posts_id post_id [("id", VInt k')]) db = (ok (Post_fields r'), db')
  /\ app (GET_posts_id k') db' = (ok (Post_fields r'), db')
  /\ app (GET_posts_id post_id) db' = (not_found "Post not found", db')
  /\ comments db' = comments db.
Proof.
  intros Hsel Hid Hk' Hk Hfree r' db'.
  assert (Hex : List.existsb (has_key post_id) (posts db) = true).
  { rewrite select_by_key_exists. now rewrite Hsel. }
  assert (Hfree' : List.existsb (has_key k') (posts db) = false).
  { rewrite select_by_key_exists. now rewrite Hfree. }
  assert (Hstore : store_columns ["id"] r' = Some r').
  { cbn. now rewrite Hk'. }
  pose proof (update_row_new_key (R:=Post.t) post_id k' ["id"] r' r' (posts db)
                Hex Hstore eq_refl Hk Hfree') as Hup.
  assert (Hnew : select_by_key k' (posts db') = Some r').
  { subst db'. cbn [posts]. apply select_by_key_inserted; [reflexivity|].
    now rewrite select_by_key_delete_other. }
  assert (Hold : select_by_key post_id (posts db') = None).
  { subst db'. cbn [posts].
    rewrite (select_by_key_insert_other (R:=Post.t) k' post_id r'); auto.
    apply select_by_key_deleted. }
  split; [|split; [|split]].
  - rewrite (app_PATCH_posts_id post_id "id" (VInt k') [] db r Hsel).
    cbn [assign_all List.map]. change (set_column "id" (VInt k') r) with (Some r').
    cbn iota. rewrite Hup. cbn zeta. subst db'. cbn [posts] in Hnew.
    now rewrite Hnew.
  - rewrite app_GET_posts_id. now rewrite Hnew.
  - rewrite app_GET_posts_id. rewrite Hold. unfold absent. now rewrite Hid.
  - reflexivity.
Qed.

(** X12 at the store holding posts 1 and 2: post 1 is moved to the key 7
    and is from then on listed after post 2. *)
Lemma patch_id_moves_post_witness :
  select_by_key 1 (posts store_two_posts) = Some post_one
  /\ int64 1 = true
  /\ int64 7 = true
  /\ 7 <> 1
  /\ select_by_key 7 (posts store_two_posts) = None
  /\ app (PATCH_posts_id 1 [("id", VInt 7)]) store_two_posts =
       (ok (Post_fields (Post.mk (VInt 7) (VStr "T") (VStr "C"))),
        {| posts := [Post.mk (VInt 2) (VStr "U") (VStr "D");
                     Post.mk (VInt 7) (VStr "T") (VStr "C")];
           comments := [] |})
  /\ (app (GET_posts_id 1)
        (app (PATCH_posts_id 1 [("id", VInt 7)]) store_two_posts).2).1 =
       not_found "Post not found".
Proof.
  split; [reflexivity|]. split; [reflexivity|]. split; [reflexivity|].
  split; [lia|]. split; [reflexivity|].
  destruct (patch_id_moves_post store_two_posts 1 7 post_one eq_refl eq_refl
              eq_refl ltac:(lia) eq_refl) as (Hpatch & _ & Hold & _).
  split.
  - exact Hpatch.
  - rewrite Hpatch. exact (f_equal fst Hold).
Defined.

(** X13.  A PATCH on an existing post whose assignments leave it with the
    id of another post is answered 500 and nothing is written: both posts
    keep their ids, titles and contents. *)
Theorem patch_taken_id_is_refused (db : DB) (post_id k' : Z) (patch_data : dict)
    (r r' : Post.t) :
  select_by_key post_id (posts db) = Some r ->
  assign_all patch_data r = Some r' ->
  Post.id r' = VInt k' ->
  k' <> post_id ->
  select_by_key k' (posts db) <> None ->
  app (PATCH_posts_id post_id patch_data) db = (server_error, db).
Proof.
  intros Hsel Hall Hid Hk Htaken.
  assert (Hpk : Post.id r = VInt post_id).
  { now apply select_by_key_Some in Hsel as [_ Hpk]. }
  destruct patch_data as [|[key v] patch_data].
  { cbn in Hall. injection Hall as <-. congruence. }
  rewrite (app_PATCH_posts_id post_id key v patch_data db r Hsel), Hall.
  assert (Hex : List.existsb (has_key k') (posts db) = true).
  { rewrite select_by_key_exists.
    destruct (select_by_key k' (posts db)); [reflexivity | contradiction]. }
  assert (Hup : update_row post_id (key :: List.map fst patch_data) r' (posts db)
                = None).
  { destruct (store_columns (key :: List.map fst patch_data) r') as [r''|] eqn:Hst.
    - apply (update_row_taken_key (R:=Post.t) post_id k' _ r' r''); auto.
      now apply (store_columns_key (R:=Post.t) _ r' r'' k' Hst).
    - unfold update_row. rewrite Hst.
      now destruct (negb (List.existsb (has_key post_id) (posts db))). }
  now rewrite Hup.
Qed.

(** X13 at the store holding posts 1 and 2: post 1 asks for the id 2. *)
Lemma patch_taken_id_is_refused_witness :
  select_by_key 1 (posts store_two_posts) = Some post_one
  /\ 2 <> 1
  /\ select_by_key 2 (posts store_two_posts) <> None
  /\ app (PATCH_posts_id 1 [("title", VStr "moved"); ("id", VInt 2)])
       store_two_posts = (server_error, store_two_posts).
Proof.
  split; [reflexivity|]. split; [lia|]. split; [discriminate|].
  apply (patch_taken_id_is_refused store_two_posts 1 2
           [("title", VStr "moved"); ("id", VInt 2)] post_one
           (Post.mk (VInt 2) (VStr "moved") (VStr "C")));
    [reflexivity | reflexivity | reflexivity | lia | discriminate].
Defined.

(** X14.  Creating and listing succeed: a request on a collection, and the
    listing of the comments of a post, is answered 200 whenever the
    [post_id] it carries is within 64 bits. *)
Theorem collection_requests_succeed (req : request) (db : DB) :
  on_collection req = true -> within_64_bits req = true ->
  status (app req db).1 = 200.
Proof.
  destruct req; cbn [on_collection within_64_bits]; try discriminate;
    intros _ Hrange.
  - now rewrite app_POST_posts.
  - change (app (PUT_posts post) db) with (app (POST_posts post) db).
    now rewrite app_POST_posts.
  - reflexivity.
  - rewrite app_GET_posts_id_comments. now rewrite Hrange.
  - now rewrite app_POST_comments.
  - change (app (PUT_comments comment) db) with (app (POST_comments comment) db).
    now rewrite app_POST_comments.
  - reflexivity.
Qed.

(** X14 at the empty store: a comment on post 9. *)
Lemma collection_requests_succeed_witness :
  on_collection (PUT_comments {| cc_post_id := 9; cc_content := "x" |}) = true
  /\ within_64_bits (PUT_comments {| cc_post_id := 9; cc_content := "x" |}) = true
  /\ status (app (PUT_comments {| cc_post_id := 9; cc_content := "x" |})
               store_empty).1 = 200.
Proof.
  split; [reflexivity|]. split; [reflexivity|].
  apply (collection_requests_succeed
           (PUT_comments {| cc_post_id := 9; cc_content := "x" |}) store_empty);
    reflexivity.
Defined.

(** * Beyond the claims: primary keys stay unique *)

Lemma distinct_NoDup (ks : list Z) : distinct ks = true <-> List.NoDup ks.
Proof.
  induction ks as [|k ks IH]; cbn.
  - split; [constructor | reflexivity].
  - rewrite andb_true_iff, negb_true_iff, IH, List.NoDup_cons_iff.
    split; intros [Hk Hks]; (split; [|exact Hks]).
    + intros Hin.
      assert (List.existsb (Z.eqb k) ks = true); [|congruence].
      apply List.existsb_exists. exists k. split; [exact Hin | apply Z.eqb_refl].
    + destruct (List.existsb (Z.eqb k) ks) eqn:E; [|reflexivity].
      apply List.existsb_exists in E as (j & Hin & Hj).
      apply Z.eqb_eq in Hj. subst j. contradiction.
Qed.

Section KeyFacts.
Context {R : Type} `{KeyLaws R}.

Lemma rowids_sound (k : Z) (rows : list R) :
  In k (rowids rows) -> List.existsb (has_key k) rows = true.
Proof.
  induction rows as [|r rows IH]; cbn; [tauto|].
  unfold has_key at 1.
  destruct (primary_key r) as [| |n| | |]; cbn; auto.
  intros [->|Hin]; [now rewrite Z.eqb_refl | rewrite IH; auto using orb_true_r].
Qed.

Lemma rowids_app (rows1 rows2 : list R) :
  rowids (rows1 ++ rows2) = (rowids rows1 ++ rowids rows2)%list.
Proof.
  induction rows1 as [|r rows1 IH]; cbn; [reflexivity|].
  destruct (primary_key r); cbn; now rewrite IH.
Qed.

Lemma uk_append (k : Z) (r : R) (rows : list R) :
  uk rows -> primary_key r = VInt k ->
  List.existsb (has_key k) rows = false -> uk (rows ++ [r]).
Proof.
  intros [Hall Hnd] Hr Hk. split.
  - apply List.Forall_app. split; [exact Hall|]. constructor; [eauto | constructor].
  - rewrite rowids_app. cbn. rewrite Hr.
    apply List.NoDup_app; [exact Hnd | repeat constructor; cbn; tauto |].
    intros j Hj [<-|[]]. apply rowids_sound in Hj. congruence.
Qed.

Lemma uk_insert_row (r : R) (rows rows' : list R) (k : Z) :
  uk rows -> insert_row r rows = Some (k, rows') -> uk rows'.
Proof.
  intros Huk. unfold insert_row.
  destruct (primary_key r) as [| |n| | |] eqn:Hr; try discriminate.
  - intros E. injection E as <- <-.
    apply uk_append with (k := next_rowid rows); [exact Huk | apply primary_key_set |].
    rewrite select_by_key_exists. now rewrite next_rowid_fresh.
  - destruct (List.existsb (has_key n) rows) eqn:Hex; [discriminate|].
    intros E. injection E as <- <-. now apply uk_append with (k := n).
Qed.

Lemma rowids_replaced (key k x : Z) (r : R) (rows : list R) :
  primary_key r = VInt k ->
  In x (rowids (List.map (fun r0 => if has_key key r0 then r else r0) rows)) ->
  In x (rowids rows) \/ (x = k /\ In key (rowids rows)).
Proof.
  intros Hr. induction rows as [|r0 rows IH]; cbn; [tauto|].
  destruct (has_key key r0) eqn:E.
  - apply has_key_primary_key in E. rewrite Hr, E. cbn.
    intros [<-|Hin]; [now right; split; [|left] | ].
    destruct (IH Hin) as [?|[? ?]]; auto.
  - destruct (primary_key r0) as [| |j| | |]; cbn; try exact IH.
    intros [<-|Hin]; [now left; left|].
    destruct (IH Hin) as [?|[? ?]]; auto.
Qed.

Lemma uk_replaced (key k : Z) (r : R) (rows : list R) :
  uk rows -> primary_key r = VInt k ->
  k = key \/ List.existsb (has_key k) rows = false ->
  uk (List.map (fun r0 => if has_key key r0 then r else r0) rows).
Proof.
  intros [Hall Hnd] Hr. induction rows as [|r0 rows IH]; intros Hk.
  - split; constructor.
  - inversion Hall as [|? ? [j Hj] Hall']; subst.
    cbn in Hnd. rewrite Hj in Hnd. inversion Hnd as [|? ? Hjnew Hnd']; subst.
    assert (Hk' : k = key \/ List.existsb (has_key k) rows = false).
    { destruct Hk as [Hk|Hk]; [now left | right].
      cbn in Hk. now apply orb_false_elim in Hk as [_ Hk]. }
    destruct (IH Hall' Hnd' Hk') as [Hall'' Hnd''].
    assert (Hjnew' : ~ In j (rowids rows)) by exact Hjnew.
    cbn [List.map]. destruct (has_key key r0) eqn:E.
    + apply has_key_primary_key in E. assert (j = key) as -> by congruence.
      split; [constructor; eauto|]. cbn. rewrite Hr. constructor; [|exact Hnd''].
      intros Hin.
      apply (rowids_replaced key k k r rows Hr) in Hin as [Hin|[_ Hin]];
        [|contradiction].
      destruct Hk' as [->|Hex]; [contradiction|].
      apply rowids_sound in Hin. congruence.
    + split; [constructor; eauto|]. cbn. rewrite Hj. constructor; [|exact Hnd''].
      intros Hin.
      apply (rowids_replaced key k j r rows Hr) in Hin as [Hin|[-> Hin]];
        [contradiction|].
      destruct Hk as [->|Hex].
      * unfold has_key in E. rewrite Hj, Z.eqb_refl in E. discriminate.
      * cbn in Hex. apply orb_false_elim in Hex as [Hex _].
        unfold has_key in Hex. rewrite Hj, Z.eqb_refl in Hex. discriminate.
Qed.

Lemma rowids_filter (g : R -> bool) (x : Z) (rows : list R) :
  In x (rowids (List.filter g rows)) -> In x (rowids rows).
Proof.
  induction rows as [|r rows IH]; cbn; [tauto|].
  destruct (g r); cbn; destruct (primary_key r); cbn; tauto.
Qed.

Lemma uk_delete_row (key : Z) (rows : list R) : uk rows -> uk (delete_row key rows).
Proof.
  unfold delete_row. intros [Hall Hnd]. split.
  - apply List.Forall_forall. intros r Hin. apply List.filter_In in Hin as [Hin _].
    now apply (proj1 (List.Forall_forall _ _) Hall).
  - induction rows as [|r rows IH]; cbn; [constructor|].
    inversion Hall as [|? ? [j Hj] Hall']; subst.
    cbn in Hnd. rewrite Hj in Hnd. inversion Hnd as [|? ? Hjnew Hnd']; subst.
    destruct (negb (has_key key r)); [|now apply IH].
    cbn. rewrite Hj. constructor; [|now apply IH].
    intros Hin. apply Hjnew. now apply rowids_filter in Hin.
Qed.

Lemma uk_insert_by_key (k : Z) (r : R) (rows : list R) :
  uk rows -> primary_key r = VInt k -> ~ In k (rowids rows) ->
  uk (insert_by_key k r rows).
Proof.
  intros [Hall Hnd] Hr. unfold insert_by_key.
  induction rows as [|r0 rows IH]; intros Hk; cbn.
  - split; [repeat constructor; eauto|]. cbn. rewrite Hr.
    repeat constructor. cbn. tauto.
  - inversion Hall as [|? ? [j Hj] Hall']; subst.
    cbn in Hnd, Hk. rewrite Hj in Hnd, Hk.
    inversion Hnd as [|? ? Hjnew Hnd']; subst.
    rewrite Hj. destruct (Z.ltb k j).
    + split; [constructor; eauto|]. cbn. rewrite Hr, Hj.
      constructor; [exact Hk | exact Hnd].
    + destruct (IH Hall' Hnd') as [Hall'' Hnd''].
      { intros Hin. apply Hk. now right. }
      split; [constructor; eauto|]. cbn. rewrite Hj.
      constructor; [|exact Hnd''].
      intros Hin. apply (rowids_insert_by_key k j r rows Hr) in Hin.
      destruct Hin as [->|Hin]; [apply Hk; now left | contradiction].
Qed.

Lemma uk_update_row (key k : Z) (changed : list string) (r : R)
    (rows rows' : list R) :
  uk rows -> update_row key changed r rows = Some (k, rows') -> uk rows'.
Proof.
  intros Huk. unfold update_row.
  destruct (negb (List.existsb (has_key key) rows)); [discriminate|].
  destruct (store_columns changed r) as [r'|]; [|discriminate].
  destruct (primary_key r') as [| |n| | |] eqn:Hr; try discriminate.
  destruct (Z.eqb_spec n key) as [->|Hne].
  - intros E. injection E as <- <-.
    apply uk_replaced with (k := key); auto.
  - destruct (List.existsb (has_key n) rows) eqn:Hex; [discriminate|].
    intros E. injection E as <- <-.
    apply uk_insert_by_key; [now apply uk_delete_row | exact Hr |].
    intros Hin. apply rowids_filter in Hin. apply rowids_sound in Hin.
    congruence.
Qed.

Lemma uk_flush_one (o o' : instance R) (rows rows' : list R) :
  uk rows -> flush_one o rows = Some (o', rows') -> uk rows'.
Proof.
  intros Huk. unfold flush_one.
  destruct (sa_state o) as [| |key [|name changed]|key|];
    try (intros E; injection E as <- <-; auto).
  - destruct (insert_row (attrs o) rows) as [[k rows1]|] eqn:Hins; [|discriminate].
    intros E. injection E as <- <-. eapply uk_insert_row; eauto.
  - destruct (update_row key (name :: changed) (attrs o) rows)
      as [[k rows1]|] eqn:Hup;
      [|discriminate].
    intros E. injection E as <- <-. eapply uk_update_row; eauto.
  - now apply uk_delete_row.
Qed.

Lemma uk_flush (os os' : list (instance R)) (rows rows' : list R) :
  uk rows -> flush os rows = Some (os', rows') -> uk rows'.
Proof.
  revert os' rows rows'. induction os as [|o os IH]; intros os' rows rows' Huk; cbn.
  - intros E. now injection E as <- <-.
  - destruct (flush_one o rows) as [[o1 rows1]|] eqn:H1; [|discriminate].
    destruct (flush os rows1) as [[os2 rows2]|] eqn:H2; [|discriminate].
    intros E. injection E as <- <-.
    eapply IH; [|exact H2]. eapply uk_flush_one; eauto.
Qed.

Lemma unique_keys_uk (rows : list R) : unique_keys rows = true <-> uk rows.
Proof.
  unfold unique_keys, uk. rewrite andb_true_iff, distinct_NoDup.
  rewrite List.forallb_forall, List.Forall_forall.
  split; intros [Hall Hnd]; (split; [|exact Hnd]); intros r Hin;
    specialize (Hall r Hin); unfold keyed in *.
  - destruct (primary_key r); try discriminate. eauto.
  - destruct Hall as [k ->]. reflexivity.
Qed.

(** In a table with unique keys every row is the one its key selects. *)
Lemma uk_select (rows : list R) (r : R) :
  uk rows -> In r rows ->
  exists k, primary_key r = VInt k /\ select_by_key k rows = Some r.
Proof.
  unfold select_by_key. intros [Hall Hnd] Hin.
  induction rows as [|r0 rows IH]; [destruct Hin|].
  inversion Hall as [|? ? [j Hj] Hall']; subst.
  cbn in Hnd. rewrite Hj in Hnd. inversion Hnd as [|? ? Hjnew Hnd']; subst.
  destruct Hin as [->|Hin].
  - exists j. split; [exact Hj|]. cbn.
    now rewrite (proj2 (has_key_primary_key j r) Hj).
  - destruct (IH Hall' Hnd' Hin) as (k & Hk & Hsel).
    exists k. split; [exact Hk|]. cbn.
    destruct (has_key k r0) eqn:E; [|exact Hsel].
    apply has_key_primary_key in E. assert (j = k) as -> by congruence.
    exfalso. apply Hjnew. apply List.find_some in Hsel as [Hin' _].
    clear -Hin' Hk. induction rows as [|r1 rows IH]; [destruct Hin'|].
    cbn. destruct Hin' as [->|Hin'].
    + rewrite Hk. now left.
    + destruct (primary_key r1); auto. right. auto.
Qed.

(** Deleting the key of a row of a table with unique keys removes one row. *)
Lemma uk_delete_one (key : Z) (rows : list R) (r : R) :
  uk rows -> select_by_key key rows = Some r ->
  (length (delete_row key rows) + 1)%nat = length rows.
Proof.
  unfold select_by_key, delete_row. intros [Hall Hnd].
  induction rows as [|r0 rows IH]; cbn; [discriminate|].
  inversion Hall as [|? ? [j Hj] Hall']; subst.
  cbn in Hnd. rewrite Hj in Hnd. inversion Hnd as [|? ? Hjnew Hnd']; subst.
  destruct (has_key key r0) eqn:E; cbn.
  - intros _. apply has_key_primary_key in E. assert (j = key) as -> by congruence.
    assert (Hall_keep : List.filter (fun r1 => negb (has_key key r1)) rows = rows).
    { clear -Hjnew. induction rows as [|r1 rows IH]; cbn; [reflexivity|].
      cbn in Hjnew. unfold has_key at 1.
      destruct (primary_key r1) as [| |n| | |]; cbn;
        try (f_equal; apply IH; exact Hjnew).
      destruct (Z.eqb_spec n key) as [->|Hne]; cbn.
      - exfalso. apply Hjnew. now left.
      - f_equal. apply IH. intros Hin. apply Hjnew. now right. }
    rewrite Hall_keep. lia.
  - intros Hsel. specialize (IH Hall' Hnd' Hsel). cbn. lia.
Qed.
End KeyFacts.

Lemma well_keyed_uk (db : DB) :
  well_keyed db = true <-> uk (posts db) /\ uk (comments db).
Proof.
  unfold well_keyed. now rewrite andb_true_iff, !unique_keys_uk.
Qed.

Lemma keeps_keys_read_only {A} (m : M A) : read_only m -> keeps_keys m.
Proof. intros Hm s Hs. now rewrite Hm. Qed.

Lemma keeps_keys_bind {A B} (m : M A) (k : A -> M B) :
  keeps_keys m -> (forall a, keeps_keys (k a)) -> keeps_keys (bind_M m k).
Proof.
  intros Hm Hk s Hs. unfold bind_M. specialize (Hm s Hs).
  destruct (m s) as [a s'|e s']; [now apply Hk | exact Hm].
Qed.

Lemma keeps_keys_for_each {A} (l : list A) (body : A -> M unit) :
  (forall x, keeps_keys (body x)) -> keeps_keys (for_each l body).
Proof.
  intros Hbody. induction l as [|x l IH]; cbn.
  - apply keeps_keys_read_only, read_only_ret.
  - apply keeps_keys_bind; auto.
Qed.

(** A commit, failed or not, leaves the keys of both tables unique. *)
Lemma keeps_keys_session_commit : keeps_keys session_commit.
Proof.
  intros s Hs. unfold session_commit.
  destruct (flush (post_objects s) (posts (bind s))) as [[pos prows]|] eqn:Hp;
    [|exact Hs].
  destruct (flush (comment_objects s) (comments (bind s))) as [[cos crows]|] eqn:Hc;
    [|exact Hs].
  cbn. apply well_keyed_uk in Hs as [Hposts Hcomments].
  apply well_keyed_uk. cbn. split.
  - eapply uk_flush; [exact Hposts | exact Hp].
  - eapply uk_flush; [exact Hcomments | exact Hc].
Qed.

Section SessionWritesFacts.
Context {R : Type} `{MappedLaws R}.

Lemma read_only_session_add (h : ref R) : read_only (session_add h).
Proof.
  apply read_only_bind; [apply read_only_deref|]. intros o.
  destruct (sa_state o); auto using read_only_store with session.
Qed.

Lemma read_only_session_delete (h : ref R) : read_only (session_delete h).
Proof.
  apply read_only_bind; [apply read_only_deref|]. intros o.
  destruct (sa_state o); auto using read_only_store with session.
Qed.

Lemma read_only_session_refresh (h : ref R) : read_only (session_refresh h).
Proof.
  apply read_only_bind; [apply read_only_deref|]. intros o.
  destruct (sa_state o); auto with session.
  intros s. destruct (select_by_key key (table (bind s))); [|reflexivity].
  apply read_only_store.
Qed.
End SessionWritesFacts.

Lemma read_only_dict_item (d : dict) (key : string) : read_only (dict_item d key).
Proof. unfold dict_item. destruct (dict_get d key); auto with session. Qed.

(** Every step of a handler keeps the keys unique: all but the commit write
    nothing, and the commit was dealt with above. *)
Ltac keeps_keys_steps :=
  repeat first
    [ apply keeps_keys_session_commit
    | solve [apply keeps_keys_read_only;
             auto using read_only_session_add, read_only_session_delete,
               read_only_session_refresh, read_only_dict_item
               with session typeclass_instances]
    | apply keeps_keys_for_each; intros [? ?]
    | apply keeps_keys_bind; [|intros [?|]]
    | apply keeps_keys_bind; [|intros ?] ].

Lemma serve_keeps_keys {A} (handler : M A) (shape : A -> M value) (db : DB) :
  keeps_keys handler -> (forall a, read_only (shape a)) ->
  well_keyed db = true -> well_keyed (serve handler shape db).2 = true.
Proof.
  intros Hh Hs Hdb. unfold serve.
  assert (Hk : forall a, keeps_keys (shape a))
    by (intros; now apply keeps_keys_read_only).
  pose proof (keeps_keys_bind handler shape Hh Hk
                {| bind := db; post_objects := []; comment_objects := [] |} Hdb) as E.
  destruct (bind_M handler (fun a => shape a) _) as [v s|[code detail|name] s];
    exact E.
Qed.

Lemma read_only_response_dict (d : dict) : read_only (response_dict d).
Proof. apply read_only_ret. Qed.

(** X15.  No request breaks the primary keys: if in both tables every row
    has an integer id and no two rows share one, the same holds after any
    request, whatever it was and however it was answered. *)
Theorem requests_keep_keys_unique (req : request) (db : DB) :
  well_keyed db = true -> well_keyed (app req db).2 = true.
Proof.
  destruct req; cbn [app]; apply serve_keeps_keys;
    auto using read_only_response_list, read_only_response_model,
      read_only_response_dict with typeclass_instances.
  - unfold create_post. keeps_keys_steps.
  - unfold create_post. keeps_keys_steps.
  - unfold read_posts. keeps_keys_steps.
  - unfold read_post. keeps_keys_steps.
  - unfold replace_post. keeps_keys_steps.
  - unfold update_post. keeps_keys_steps.
  - unfold delete_post. keeps_keys_steps.
  - unfold read_post_comments. keeps_keys_steps.
  - unfold create_comment. keeps_keys_steps.
  - unfold create_comment. keeps_keys_steps.
  - unfold read_comments. keeps_keys_steps.
  - unfold read_comment. keeps_keys_steps.
  - unfold replace_comment. keeps_keys_steps.
  - unfold update_comment. keeps_keys_steps.
  - unfold delete_comment. keeps_keys_steps.
  - apply keeps_keys_read_only, read_only_read_comment_post.
Qed.

Lemma requests_keep_keys_unique_witness :
  well_keyed store_two_posts = true
  /\ well_keyed (app (PATCH_posts_id 1 [("id", VInt 9); ("title", VNull)])
                   store_two_posts).2 = true.
Proof.
  split; [reflexivity|].
  apply (requests_keep_keys_unique
           (PATCH_posts_id 1 [("id", VInt 9); ("title", VNull)]) store_two_posts).
  reflexivity.
Defined.


(** X16.  In a store with unique keys the listing and the fetch agree:
    every post the listing shows has an integer id, and fetching that id
    answers with that very post; the same for comments. *)
Theorem listed_rows_are_fetched (db : DB) :
  well_keyed db = true ->
  (forall r, In r (posts db) ->
     exists k, Post.id r = VInt k
               /\ app (GET_posts_id k) db = (ok (Post_fields r), db))
  /\ (forall c, In c (comments db) ->
        exists k, Comment.id c = VInt k
                  /\ app (GET_comments_id k) db = (ok (Comment_fields c), db)).
Proof.
  intros Hdb. apply well_keyed_uk in Hdb as [Hposts Hcomments]. split.
  - intros r Hin. destruct (uk_select (posts db) r Hposts Hin) as (k & Hk & Hsel).
    exists k. split; [exact Hk|]. rewrite app_GET_posts_id. now rewrite Hsel.
  - intros c Hin.
    destruct (uk_select (comments db) c Hcomments Hin) as (k & Hk & Hsel).
    exists k. split; [exact Hk|]. rewrite app_GET_comments_id. now rewrite Hsel.
Qed.

Lemma listed_rows_are_fetched_witness :
  well_keyed store_two_posts = true
  /\ (exists k, Post.id (Post.mk (VInt 2) (VStr "U") (VStr "D")) = VInt k
                /\ app (GET_posts_id k) store_two_posts =
                     (ok (Post_fields (Post.mk (VInt 2) (VStr "U") (VStr "D"))),
                      store_two_posts)).
Proof.
  split; [reflexivity|].
  destruct (listed_rows_are_fetched store_two_posts eq_refl) as [Hposts _].
  apply Hposts. right. left. reflexivity.
Defined.

(** X17.  In a store with unique keys a successful delete removes exactly
    one row: the table of posts, or of comments, is one row shorter and the
    other table is as it was. *)
Theorem delete_removes_one_row (db : DB) (key : Z) :
  well_keyed db = true ->
  (status (app (DELETE_posts_id key) db).1 = 200 ->
     (length (posts (app (DELETE_posts_id key) db).2) + 1)%nat = length (posts db)
     /\ comments (app (DELETE_posts_id key) db).2 = comments db)
  /\ (status (app (DELETE_comments_id key) db).1 = 200 ->
        (length (comments (app (DELETE_comments_id key) db).2) + 1)%nat =
          length (comments db)
        /\ posts (app (DELETE_comments_id key) db).2 = posts db).
Proof.
  intros Hdb. apply well_keyed_uk in Hdb as [Hposts Hcomments]. split.
  - rewrite app_DELETE_posts_id.
    destruct (select_by_key key (posts db)) as [r|] eqn:Hsel;
      [cbn | unfold absent; destruct (int64 key); cbn; discriminate].
    intros _. split; [|reflexivity]. now apply uk_delete_one with (r := r).
  - rewrite app_DELETE_comments_id.
    destruct (select_by_key key (comments db)) as [c|] eqn:Hsel;
      [cbn | unfold absent; destruct (int64 key); cbn; discriminate].
    intros _. split; [|reflexivity]. now apply uk_delete_one with (r := c).
Qed.

Lemma delete_removes_one_row_witness :
  well_keyed store_two_posts = true
  /\ status (app (DELETE_posts_id 2) store_two_posts).1 = 200
  /\ (length (posts (app (DELETE_posts_id 2) store_two_posts).2) + 1)%nat =
       length (posts store_two_posts).
Proof.
  split; [reflexivity|]. split; [reflexivity|].
  destruct (delete_removes_one_row store_two_posts 2 eq_refl) as [Hposts _].
  destruct (Hposts eq_refl) as [Hlen _]. exact Hlen.
Defined.

(** X18.  A comment created on an existing post points at it: asking for
    the post of the new comment answers with that post, as stored. *)
Theorem created_comment_points_at_post (comment : CreateCommentModel) (db : DB)
    (r : Post.t) :
  select_by_key (cc_post_id comment) (posts db) = Some r ->
  let db' := (app (POST_comments comment) db).2 in
  app (GET_comments_id_post (next_rowid (comments db))) db' =
    (ok (Post_fields r), db').
Proof.
  intros Hpost db'. subst db'. rewrite app_POST_comments. cbn [snd].
  rewrite app_GET_comments_id_post. cbn [posts comments].
  rewrite select_by_key_app, next_rowid_fresh.
  unfold has_key. cbn. rewrite Z.eqb_refl. cbn. now rewrite Hpost.
Qed.

Lemma created_comment_points_at_post_witness :
  select_by_key 1 (posts store_one_post) = Some post_one
  /\ (app (GET_comments_id_post 1)
        (app (POST_comments {| cc_post_id := 1; cc_content := "hello" |})
           store_one_post).2).1 = ok (Post_fields post_one).
Proof.
  split; [reflexivity|].
  exact (f_equal fst
           (created_comment_points_at_post
              {| cc_post_id := 1; cc_content := "hello" |} store_one_post post_one
              eq_refl)).
Defined.

(** X19.  Two posts created one after the other get different ids, and
    afterwards each id is answered with the post created under it. *)
Theorem two_creations_both_fetched (first second : CreatePostModel) (db : DB) :
  let k1 := next_rowid (posts db) in
  let db1 := (app (POST_posts first) db).2 in
  let k2 := next_rowid (posts db1) in
  let db2 := (app (POST_posts second) db1).2 in
  k1 <> k2
  /\ app (GET_posts_id k1) db2 =
       (ok (Post_fields (Post.mk (VInt k1) (VStr (cp_title first))
                           (VStr (cp_content first)))), db2)
  /\ app (GET_posts_id k2) db2 =
       (ok (Post_fields (Post.mk (VInt k2) (VStr (cp_title second))
                           (VStr (cp_content second)))), db2).
Proof.
  intros k1 db1 k2 db2.
  set (row1 := Post.mk (VInt k1) (VStr (cp_title first)) (VStr (cp_content first))).
  assert (Hdb1 : posts db1 = (posts db ++ [row1])%list).
  { subst db1. now rewrite app_POST_posts. }
  assert (Hsel1 : select_by_key k1 (posts db1) = Some row1).
  { rewrite Hdb1, select_by_key_app. subst k1. rewrite next_rowid_fresh.
    unfold has_key. cbn. now rewrite Z.eqb_refl. }
  assert (Hfresh2 : select_by_key k2 (posts db1) = None) by apply next_rowid_fresh.
  split; [intros E; rewrite E in Hsel1; congruence|].
  subst db2. rewrite app_POST_posts. cbn [snd].
  rewrite !app_GET_posts_id. cbn [posts]. rewrite !select_by_key_app.
  fold k2. rewrite Hsel1, Hfresh2. split; [reflexivity|].
  unfold has_key. cbn. now rewrite Z.eqb_refl.
Qed.
